(** * pk_pipe_demo: the parent side of a full-duplex pipe loop

    A shallow embedding of [parent.cpp]: the line assembler [GetLine], the
    descriptor bookkeeping of [InitializeChild] / [InitializeParent] and the
    duplex loop of [main], together with the properties the specification
    states about them.

    Bytes ([char]) are [ascii]; a [std::string] is a [list ascii]; the
    64-bit message counter is a [Z] with its wrap-around written out;
    descriptor tables are finite maps keyed by the descriptor number. *)

From Stdlib Require Import ZArith Ascii String Lia.
From stdpp Require Import base option list gmap strings pretty.

Local Open Scope Z_scope.

(** ** The operating-system interface the program relies on *)

(** The newline byte, ['\n']. *)
Definition newline : ascii := "010"%char.

(** [errno] values of <errno.h> (Linux numbering). *)
Definition EINTR : Z := 4.
Definition EBADF : Z := 9.
Definition EAGAIN : Z := 11.
Definition EPIPE : Z := 32.

(** What [read] on a descriptor does once no byte is pending: it returns 0
    (end of stream, every writer has closed; [errno] is left alone) or it
    returns -1 and stores a code in [errno].  On a non-blocking descriptor
    whose writer is alive but silent that code is [EAGAIN]. *)
Inductive drained : Type :=
  | EndOfStream
  | Fails (e : Z).

Definition WouldBlock : drained := Fails EAGAIN.

(** The readable side of a descriptor as the reader sees it: the bytes that
    have been delivered and not read yet, oldest first, and the behaviour of
    [read] after them. *)
Record file : Type := File {
  pending : list ascii;
  when_drained : drained
}.

(** The part of the process state that [GetLine] touches: its function-static
    flag, the thread's [errno], and the descriptors open for reading. *)
Record world : Type := World {
  needs_a_reset : bool;
  errno : Z;
  files : gmap Z file
}.

Definition set_needs_a_reset (b : bool) (w : world) : world :=
  World b (errno w) (files w).
Definition set_errno (e : Z) (w : world) : world :=
  World (needs_a_reset w) e (files w).
Definition set_file (fd : Z) (f : file) (w : world) : world :=
  World (needs_a_reset w) (errno w) (<[fd := f]> (files w)).

(** The state at program start: [static bool needs_a_reset = true]. *)
Definition initial_world (e : Z) (fs : gmap Z file) : world := World true e fs.

(** [read(fd, &c, 1)]: the return value, the byte stored in [c] (if any) and
    the new state. *)
Definition read (fd : Z) (w : world) : (Z * option ascii) * world :=
  match files w !! fd with
  | None => ((-1, None), set_errno EBADF w)
  | Some f =>
      match pending f with
      | c :: rest => ((1, Some c), set_file fd (File rest (when_drained f)) w)
      | [] =>
          match when_drained f with
          | EndOfStream => ((0, None), w)
          | Fails e => ((-1, None), set_errno e w)
          end
      end
  end.

(** The environment delivers more bytes to a descriptor (the child wrote to
    its standard output). *)
Definition deliver (fd : Z) (bytes : list ascii) (w : world) : world :=
  match files w !! fd with
  | None => w
  | Some f => set_file fd (File (pending f ++ bytes) (when_drained f)) w
  end.

(** The environment changes what a drained descriptor answers (the child
    exits or closes its output, the descriptor breaks). *)
Definition hang_up (fd : Z) (d : drained) (w : world) : world :=
  match files w !! fd with
  | None => w
  | Some f => set_file fd (File (pending f) d) w
  end.

(** ** GetLine *)

(** How the [while] loop of [GetLine] is left. *)
Inductive loop_exit : Type :=
  | Broke (buffer rest : list ascii)   (* newline appended: [break] *)
  | Drained (buffer : list ascii).     (* [read] returned something other than 1 *)

(** [while ((read_return_value = read(fd, &c, 1)) == 1) { buffer.push_back(c);
    if (c == '\n') { retval = needs_a_reset = true; break; } }]
    [read] returns 1 exactly while a byte is pending, so the loop is a
    recursion over the pending bytes. *)
Fixpoint read_loop (unread buffer : list ascii) : loop_exit :=
  match unread with
  | c :: unread =>
      let buffer := buffer ++ [c] in
      if Ascii.eqb c newline then Broke buffer unread
      else read_loop unread buffer
  | [] => Drained buffer
  end.

(** The bytes pending on a descriptor (none when it is not open), and the
    state after the loop has read all of them but [rest]. *)
Definition unread (fd : Z) (w : world) : list ascii :=
  default [] (pending <$> files w !! fd).

Definition set_unread (fd : Z) (rest : list ascii) (w : world) : world :=
  match files w !! fd with
  | None => w
  | Some f => set_file fd (File rest (when_drained f)) w
  end.

(** [bool GetLine(int fd, string & buffer, bool & error)]: the result is
    [(retval, buffer, error)] and the new state. *)
Definition GetLine (fd : Z) (buffer : list ascii) (w : world)
  : (bool * list ascii * bool) * world :=
  (* bool retval = error = false; *)
  (* if (needs_a_reset) { buffer.erase(); needs_a_reset = false; } *)
  let buffer := if needs_a_reset w then [] else buffer in
  let w := set_needs_a_reset false w in
  match read_loop (unread fd w) buffer with
  | Broke buffer rest =>
      (* retval = needs_a_reset = true; break;  read_return_value is 1, so
         the test read_return_value <= 0 fails and error stays false *)
      ((true, buffer, false), set_needs_a_reset true (set_unread fd rest w))
  | Drained buffer =>
      (* the read that ended the loop *)
      let '((read_return_value, _), w) := read fd (set_unread fd [] w) in
      (* if (read_return_value <= 0) { if (errno != EAGAIN) error = true; } *)
      let error :=
        if read_return_value <=? 0 then negb (errno w =? EAGAIN) else false in
      ((false, buffer, error), w)
  end.

(** Projections of a call's result. *)
Definition retval_of (r : (bool * list ascii * bool) * world) : bool := r.1.1.1.
Definition buffer_of (r : (bool * list ascii * bool) * world) : list ascii := r.1.1.2.
Definition error_of (r : (bool * list ascii * bool) * world) : bool := r.1.2.
Definition world_of (r : (bool * list ascii * bool) * world) : world := r.2.

(** ** A caller polling one descriptor with one buffer *)

(** What the environment does to the descriptor between two polls: more bytes
    arrive, and the behaviour of the drained descriptor may change. *)
Record arrival : Type := Arrival {
  bytes : list ascii;
  change : option drained
}.

Definition arrive (fd : Z) (a : arrival) (w : world) : world :=
  let w := deliver fd (bytes a) w in
  match change a with
  | Some d => hang_up fd d w
  | None => w
  end.

(** One call as the caller observes it, with the flag found on entry. *)
Record call : Type := Call {
  entry_flag : bool;
  entry_buffer : list ascii;
  line_ready : bool;
  exit_buffer : list ascii;
  failed : bool
}.

(** The caller polls once after every arrival, passing back the buffer the
    previous call left (as [main] does with its local [buffer]). *)
Fixpoint session (fd : Z) (env : list arrival) (buffer : list ascii) (w : world)
  : list call :=
  match env with
  | [] => []
  | a :: env =>
      let w := arrive fd a w in
      let r := GetLine fd buffer w in
      Call (needs_a_reset w) buffer (retval_of r) (buffer_of r) (error_of r)
        :: session fd env (buffer_of r) (world_of r)
  end.

(** The lines reported to the caller, in order. *)
Definition reported (cs : list call) : list (list ascii) :=
  exit_buffer <$> filter (λ c, line_ready c = true) cs.

(** All the bytes the environment delivered during a session. *)
Definition delivered (env : list arrival) : list ascii :=
  concat (bytes <$> env).

(** ** The duplex loop of main *)

(** [uint64_t message_counter]: [message_counter++] wraps modulo 2^64. *)
Definition UINT64_MODULUS : Z := 2 ^ 64.
Definition uint64_incr (n : Z) : Z := (n + 1) mod UINT64_MODULUS.

(** [ss << "Line: " << message_counter << endl; s = ss.str()]. *)
Definition outbound (n : Z) : list ascii :=
  list_ascii_of_string "Line: " ++ list_ascii_of_string (pretty n) ++ [newline].

(** The result of [write(to_child[WRITE_SIDE], ...)] is decided by the
    environment: every byte is taken, only the first [n] are, or the call
    returns -1 with a code stored in [errno]. *)
Inductive write_result : Type :=
  | WroteAll
  | WroteOnly (n : Z)
  | WriteFailed (e : Z).

Definition write (r : write_result) (s : list ascii) (w : world) : Z * world :=
  match r with
  | WroteAll => (Z.of_nat (length s), w)
  | WroteOnly n => (n, w)
  | WriteFailed e => (-1, set_errno e w)
  end.

(** What the environment does during one iteration. *)
Record turn : Type := Turn {
  write_outcome : write_result;
  child_output : arrival
}.

Inductive window : Type := tx_window | rx_window.

(** The calls [main] makes that are visible outside it, in program order. *)
Inductive event : Type :=
  | EWrite (fd : Z) (s : list ascii)
  | EAddLine (win : window) (s : list ascii)
  | EGetLine (fd : Z)
  | ERefresh
  | ESleep (ms : Z).

(** The locals of [main] that live across iterations. *)
Record locals : Type := Locals {
  message_counter : Z;
  buffer : list ascii;
  error : bool
}.

Record machine : Type := Machine {
  os : world;
  vars : locals;
  log : list event
}.

(** [uint64_t message_counter = 0; string buffer; bool error = false;] *)
Definition initial_locals : locals := Locals 0 [] false.
Definition initial_machine (w : world) : machine := Machine w initial_locals [].

Inductive status : Type := Running | Terminated.

(** One pass through the body of [while (true)]; [to_fd] is
    [to_child[WRITE_SIDE]] and [from_fd] is [from_child[READ_SIDE]]. *)
Definition iteration (to_fd from_fd : Z) (t : turn) (m : machine)
  : status * machine :=
  (* ss << "Line: " << message_counter++ << endl; string s = ss.str(); *)
  let s := outbound (message_counter (vars m)) in
  let counter := uint64_incr (message_counter (vars m)) in
  (* write(to_child[WRITE_SIDE], s.c_str(), s.size()); result discarded *)
  let w := (write (write_outcome t) s (os m)).2 in
  let l := log m ++ [EWrite to_fd s] in
  (* AddLine(tx_window, s.c_str()); *)
  let l := l ++ [EAddLine tx_window s] in
  (* meanwhile the child may have produced output *)
  let w := arrive from_fd (child_output t) w in
  (* if (GetLine(from_child[READ_SIDE], buffer, error)) AddLine(rx_window, ...) *)
  let r := GetLine from_fd (buffer (vars m)) w in
  let l := l ++ [EGetLine from_fd] in
  let l := if retval_of r then l ++ [EAddLine rx_window (buffer_of r)] else l in
  let v := Locals counter (buffer_of r) (error_of r) in
  (* if (error) break; *)
  if error_of r then (Terminated, Machine (world_of r) v l)
  else
    (* Refresh(); this_thread::sleep_for(chrono::milliseconds(250)); *)
    (Running, Machine (world_of r) v (l ++ [ERefresh; ESleep 250])).

(** [while (true) { ... }] against a finite prefix of the environment's
    behaviour: [Running] means the loop has not left by [break] when the
    prefix ends. *)
Fixpoint main_loop (to_fd from_fd : Z) (env : list turn) (m : machine)
  : status * machine :=
  match env with
  | [] => (Running, m)
  | t :: env =>
      match iteration to_fd from_fd t m with
      | (Terminated, m) => (Terminated, m)
      | (Running, m) => main_loop to_fd from_fd env m
      end
  end.

(** The messages handed to [write], oldest first. *)
Definition written (l : list event) : list (list ascii) :=
  omap (λ e, match e with EWrite _ s => Some s | _ => None end) l.

(** The lines shown in the RX window, oldest first. *)
Definition received (l : list event) : list (list ascii) :=
  omap (λ e, match e with EAddLine rx_window s => Some s | _ => None end) l.

(** The writes to the child and the polls of the child, in program order. *)
Definition exchanges (l : list event) : list event :=
  omap (λ e, match e with
             | EWrite _ _ | EGetLine _ => Some e
             | _ => None
             end) l.

(** What one pass through the loop body appends to the log, given the
    counter value it starts with and what [GetLine] answered. *)
Definition iteration_log (to_fd from_fd c : Z)
    (line_ready : bool) (buffer : list ascii) (error : bool) : list event :=
  [EWrite to_fd (outbound c); EAddLine tx_window (outbound c); EGetLine from_fd]
  ++ (if line_ready then [EAddLine rx_window buffer] else [])
  ++ (if error then [] else [ERefresh; ESleep 250]).

(** A turn in which the write succeeds in full and the child stays silent. *)
Definition quiet_turn : turn := Turn WroteAll (Arrival [] None).

(** ** Descriptor bookkeeping around fork *)

Inductive pipe_name : Type := to_child | from_child.
Inductive pipe_side : Type := READ_SIDE | WRITE_SIDE.

(** What a descriptor refers to: one end of one of the two pipes, or
    something else (the terminal, a file). *)
Inductive open_file : Type :=
  | PipeEnd (p : pipe_name) (s : pipe_side)
  | Other (id : Z).

Global Instance pipe_name_eq_dec : EqDecision pipe_name.
Proof. solve_decision. Defined.
Global Instance pipe_side_eq_dec : EqDecision pipe_side.
Proof. solve_decision. Defined.
Global Instance open_file_eq_dec : EqDecision open_file.
Proof. solve_decision. Defined.

Definition STDIN_FILENO : Z := 0.
Definition STDOUT_FILENO : Z := 1.
Definition O_NONBLOCK : Z := 2048.

(** A process: its descriptor table and the status flags of the open files
    its descriptors refer to. *)
Record process : Type := Process {
  table : gmap Z open_file;
  status_flags : open_file → Z
}.

(** [int p[2]] as filled by [pipe]: [p[READ_SIDE]] and [p[WRITE_SIDE]]. *)
Definition pipe_fds : Type := (Z * Z)%type.
Definition at_side (p : pipe_fds) (s : pipe_side) : Z :=
  match s with READ_SIDE => p.1 | WRITE_SIDE => p.2 end.

(** A successful [pipe(p)]: the kernel picked the two descriptors. *)
Definition pipe (which : pipe_name) (p : pipe_fds) (pr : process) : process :=
  Process
    (<[at_side p WRITE_SIDE := PipeEnd which WRITE_SIDE]>
       (<[at_side p READ_SIDE := PipeEnd which READ_SIDE]> (table pr)))
    (status_flags pr).

(** [pipe] hands out two distinct descriptors that were not in use. *)
Definition unused_pair (p : pipe_fds) (pr : process) : Prop :=
  p.1 ≠ p.2 ∧ table pr !! p.1 = None ∧ table pr !! p.2 = None.

(** [close(fd)]; closing a descriptor that is not open changes nothing. *)
Definition close (fd : Z) (pr : process) : process :=
  Process (delete fd (table pr)) (status_flags pr).

(** [dup2(oldfd, newfd)]: [newfd] now refers to what [oldfd] refers to; with
    [oldfd] not open the call fails and changes nothing. *)
Definition dup2 (oldfd newfd : Z) (pr : process) : process :=
  match table pr !! oldfd with
  | None => pr
  | Some o => Process (<[newfd := o]> (table pr)) (status_flags pr)
  end.

(** [fcntl(fd, F_GETFL, 0)] and [fcntl(fd, F_SETFL, v)]. *)
Definition fcntl_getfl (fd : Z) (pr : process) : Z :=
  match table pr !! fd with
  | None => -1
  | Some o => status_flags pr o
  end.

Definition fcntl_setfl (fd v : Z) (pr : process) : process :=
  match table pr !! fd with
  | None => pr
  | Some o =>
      Process (table pr) (λ o', if decide (o' = o) then v else status_flags pr o')
  end.

(** [InitializeChild], up to the point where [execl] replaces the image (the
    descriptor table survives [execl]). *)
Definition InitializeChild (to_c from_c : pipe_fds) (pr : process) : process :=
  let pr := dup2 (at_side to_c READ_SIDE) STDIN_FILENO pr in
  let pr := close (at_side to_c READ_SIDE) pr in
  let pr := dup2 (at_side from_c WRITE_SIDE) STDOUT_FILENO pr in
  let pr := close (at_side from_c WRITE_SIDE) pr in
  let pr := close (at_side to_c WRITE_SIDE) pr in
  close (at_side from_c READ_SIDE) pr.

(** [InitializeParent]. *)
Definition InitializeParent (to_c from_c : pipe_fds) (pr : process) : process :=
  let pr := close (at_side to_c READ_SIDE) pr in
  let pr := close (at_side from_c WRITE_SIDE) pr in
  let flags := fcntl_getfl (at_side from_c READ_SIDE) pr in
  fcntl_setfl (at_side from_c READ_SIDE) (Z.lor flags O_NONBLOCK) pr.

(** [pipe(to_child); pipe(from_child); fork()] followed by the role set-up:
    the parent's and the child's image, both starting from the same table. *)
Definition establish_roles (to_c from_c : pipe_fds) (pr : process)
  : process * process :=
  let pr := pipe from_child from_c (pipe to_child to_c pr) in
  (InitializeParent to_c from_c pr, InitializeChild to_c from_c pr).



(** A process as the shell starts it: descriptors 0, 1 and 2 on the
    terminal. *)
Definition standard_process : process :=
  Process {[ 0 := Other 0; 1 := Other 0; 2 := Other 0 ]} (λ _, 0).

(** ** Specification-level vocabulary *)

(** The part of the caller's buffer that survives the entry of [GetLine]. *)
Definition held (w : world) (buffer : list ascii) : list ascii :=
  if needs_a_reset w then [] else buffer.

(** A reported line: bytes without a newline, then the newline. *)
Definition one_line (s : list ascii) : Prop :=
  ∃ l, s = l ++ [newline] ∧ newline ∉ l.

(** A session that reports exactly once: the calls before and after the
    reporting call return false; the reporting call leaves [line] in the
    buffer; the next call, if any, finds the flag set and that line still in
    the buffer; later calls only ever hold a prefix of [rest]. *)
Definition reports_once (cs : list call) (line rest : list ascii) : Prop :=
  ∃ before c after,
    cs = before ++ c :: after ∧
    Forall (λ c, line_ready c = false) before ∧
    line_ready c = true ∧ exit_buffer c = line ∧
    Forall (λ c', line_ready c' = false ∧ exit_buffer c' `prefix_of` rest) after ∧
    match after with
    | [] => True
    | c' :: _ => entry_flag c' = true ∧ entry_buffer c' = line
    end.

(** A machine whose from-child descriptor is drained and on which the next
    poll ends without an error: [read] would block, or it meets
    end-of-stream while [errno] still holds [EAGAIN]. *)
Definition calm (from_fd : Z) (m : machine) : Prop :=
  ∃ d, files (os m) !! from_fd = Some (File [] d)
       ∧ (d = WouldBlock ∨ (d = EndOfStream ∧ errno (os m) = EAGAIN)).

(** ** Concrete inputs used in the examples *)

(** A byte sequence written as a string literal. *)
Definition text (s : string) : list ascii := list_ascii_of_string s.

(** Descriptor 3 open, drained and non-blocking, at program start. *)
Definition fresh_start : world :=
  initial_world 0 {[3 := File [] WouldBlock]}.

(** Two descriptors polled by two callers, each with its own buffer: the
    caller of descriptor 4 has gathered "he"; then "x\n" arrives on 3 and
    "llo\n" on 4. *)
Definition two_channels : world :=
  deliver 4 (text "llo" ++ [newline])
    (deliver 3 (text "x" ++ [newline])
       (world_of (GetLine 4 []
          (deliver 4 (text "he")
             (initial_world 0 {[3 := File [] WouldBlock; 4 := File [] WouldBlock]}))))).

(** ** Further vocabulary: whole sessions, the windows, the start of main *)

(** The buffer and the state a session of polls ends with. *)
Fixpoint session_end (fd : Z) (env : list arrival) (buffer : list ascii) (w : world)
  : list ascii * world :=
  match env with
  | [] => (buffer, w)
  | a :: env =>
      let w := arrive fd a w in
      let r := GetLine fd buffer w in
      session_end fd env (buffer_of r) (world_of r)
  end.

(** The lines shown in the TX window, oldest first. *)
Definition transmitted (l : list event) : list (list ascii) :=
  omap (λ e, match e with EAddLine tx_window s => Some s | _ => None end) l.

(** The waits between iterations, in milliseconds. *)
Definition sleeps (l : list event) : list Z :=
  omap (λ e, match e with ESleep ms => Some ms | _ => None end) l.

(** Everything the child put on its standard output during the turns. *)
Definition child_said (env : list turn) : list ascii :=
  delivered (child_output <$> env).

(** A child that behaves like [cat]: during the iteration that sends the
    message with counter value [c] it writes that message back. *)
Definition echo_turn (c : Z) : turn := Turn WroteAll (Arrival (outbound c) None).

Fixpoint echo_turns (c : Z) (n : nat) : list turn :=
  match n with
  | O => []
  | S n => echo_turn c :: echo_turns (uint64_incr c) n
  end.

(** What the environment decides while [main] starts up: whether [initscr]
    returns a screen, the descriptors each [pipe] call hands out ([None]
    when it returns -1), the value [fork] returns, whether [execl] replaces
    the image. *)
Record startup : Type := Startup {
  initscr_ok : bool;
  to_child_pipe : option pipe_fds;
  from_child_pipe : option pipe_fds;
  fork_pid : Z;
  execl_ok : bool
}.

(** The library and system calls of [main] outside the loop body. *)
Inductive setup_call : Type :=
  | CInitscr
  | CPipe (which : pipe_name)
  | CFork
  | CExecl
  | CEndwin
  | CCerr (s : string).

(** How a process that runs [main] ends up: [main] returns, [execl] has
    replaced the image, or the loop is still going when the environment's
    prefix ends. *)
Inductive ending : Type :=
  | Returns (code : Z)
  | BecomesCat
  | KeepsLooping.

Record run : Type := Run {
  ending_of : ending;
  calls : list setup_call;
  image : process;
  looped : option machine
}.

(** [catch (const string s) { cerr << s << endl; } return 0;] *)
Definition caught (s : string) (cs : list setup_call) (pr : process) : run :=
  Run (Returns 0) (cs ++ [CCerr s]) pr None.

(** [main], in the process image that [fork] returns into with [fork_pid]. *)
Definition main (e : startup) (pr : process) (w : world) (env : list turn) : run :=
  (* InitializeWindows(): if (!initscr()) throw ... *)
  if negb (initscr_ok e) then caught "Curses failed to initialize" [CInitscr] pr
  else
    (* if (pipe(to_child) < 0) throw ... *)
    match to_child_pipe e with
    | None =>
        caught "Pipe to child failed to allocate." [CInitscr; CPipe to_child] pr
    | Some to_c =>
        let pr := pipe to_child to_c pr in
        (* if (pipe(from_child) < 0) throw ... *)
        match from_child_pipe e with
        | None =>
            caught "Pipe from child failed to allocate."
              [CInitscr; CPipe to_child; CPipe from_child] pr
        | Some from_c =>
            let pr := pipe from_child from_c pr in
            (* pid_t pid = fork(); *)
            let cs := [CInitscr; CPipe to_child; CPipe from_child; CFork] in
            (* if (!pid) InitializeChild(to_child, from_child); *)
            if fork_pid e =? 0 then
              let pr := InitializeChild to_c from_c pr in
              (* execl("/bin/cat", "cat", "-", nullptr); throw ... *)
              if execl_ok e then Run BecomesCat (cs ++ [CExecl]) pr None
              else caught "Failed to exec to ./child." (cs ++ [CExecl]) pr
            else
              (* InitializeParent(to_child, from_child); while (true) ... *)
              let pr := InitializeParent to_c from_c pr in
              match main_loop (at_side to_c WRITE_SIDE) (at_side from_c READ_SIDE)
                      env (initial_machine w) with
              | (Terminated, m) =>
                  (* endwin(); return 0; *)
                  Run (Returns 0) (cs ++ [CEndwin]) pr (Some m)
              | (Running, m) => Run KeepsLooping cs pr (Some m)
              end
        end
    end.


(** * Properties *)

(** ** The read loop *)

Lemma eqb_newline c : Ascii.eqb c newline = bool_decide (c = newline).
Proof.
  destruct (Ascii.eqb_spec c newline) as [->|Hne].
  - by rewrite bool_decide_eq_true_2.
  - by rewrite bool_decide_eq_false_2.
Qed.

Lemma read_loop_drained unread buffer :
  newline ∉ unread → read_loop unread buffer = Drained (buffer ++ unread).
Proof.
  revert buffer. induction unread as [|c unread IH]; intros buffer Hnl; cbn [read_loop].
  - by rewrite app_nil_r.
  - apply not_elem_of_cons in Hnl as [Hc Hnl].
    rewrite eqb_newline, bool_decide_eq_false_2 by congruence.
    rewrite IH by done. by rewrite <- app_assoc.
Qed.

Lemma read_loop_broke l rest buffer :
  newline ∉ l →
  read_loop (l ++ newline :: rest) buffer = Broke (buffer ++ l ++ [newline]) rest.
Proof.
  revert buffer. induction l as [|c l IH]; intros buffer Hnl; cbn [read_loop app].
  - by rewrite eqb_newline, bool_decide_eq_true_2.
  - apply not_elem_of_cons in Hnl as [Hc Hnl].
    rewrite eqb_newline, bool_decide_eq_false_2 by congruence.
    rewrite IH by done. by rewrite <- app_assoc.
Qed.

(** The loop either stops right after the first pending newline or takes
    every pending byte. *)
Lemma read_loop_cases unread buffer :
  (∃ l rest, unread = l ++ newline :: rest ∧ (newline ∉ l) ∧
             read_loop unread buffer = Broke (buffer ++ l ++ [newline]) rest)
  ∨ ((newline ∉ unread) ∧ read_loop unread buffer = Drained (buffer ++ unread)).
Proof.
  destruct (decide (newline ∈ unread)) as [Hin|Hnin].
  - left. apply list_elem_of_split_l in Hin as (l & rest & -> & Hl).
    exists l, rest. split_and!; [done..|]. by apply read_loop_broke.
  - right. split; [done|]. by apply read_loop_drained.
Qed.

(** The first newline of a byte sequence splits it in one way only. *)
Lemma first_newline_unique (l1 l2 r1 r2 : list ascii) :
  l1 ++ newline :: r1 = l2 ++ newline :: r2 →
  newline ∉ l1 → newline ∉ l2 → l1 = l2 ∧ r1 = r2.
Proof.
  revert l2. induction l1 as [|a l1 IH]; intros [|b l2] Heq H1 H2; simpl in *.
  - by inversion Heq.
  - inversion Heq; subst. exfalso. apply H2. by left.
  - inversion Heq; subst. exfalso. apply H1. by left.
  - inversion Heq; subst.
    apply not_elem_of_cons in H1 as [_ H1]. apply not_elem_of_cons in H2 as [_ H2].
    destruct (IH l2) as [-> ->]; done.
Qed.

Lemma unread_open fd w f : files w !! fd = Some f → unread fd w = pending f.
Proof. intros Hf. unfold unread. by rewrite Hf. Qed.

Lemma unread_closed fd w : files w !! fd = None → unread fd w = [].
Proof. intros Hf. unfold unread. by rewrite Hf. Qed.

(** The structural loop is the [while] loop over the [read] system call:
    one more round exactly when [read] returns 1. *)
Lemma read_loop_unfold fd w buffer :
  read_loop (unread fd w) buffer =
    match read fd w with
    | ((1, Some c), w') =>
        if Ascii.eqb c newline then Broke (buffer ++ [c]) (unread fd w')
        else read_loop (unread fd w') (buffer ++ [c])
    | _ => Drained buffer
    end.
Proof.
  unfold read. destruct (files w !! fd) as [f|] eqn:Hf.
  - rewrite (unread_open fd w f Hf).
    destruct (pending f) as [|c rest]; cbn [read_loop].
    + by destruct (when_drained f).
    + rewrite (unread_open fd _ (File rest (when_drained f))); [done|].
      cbn [set_file files]. by rewrite lookup_insert_eq.
  - by rewrite unread_closed.
Qed.

(** ** One call of GetLine *)

Section one_call.
Context (fd : Z) (buffer : list ascii) (w : world).

(** A pending newline: the call reports the line and leaves the rest. *)
Lemma GetLine_line f l rest :
  files w !! fd = Some f →
  pending f = l ++ newline :: rest →
  newline ∉ l →
  GetLine fd buffer w =
    ((true, held w buffer ++ l ++ [newline], false),
     World true (errno w) (<[fd := File rest (when_drained f)]> (files w))).
Proof.
  intros Hf Hp Hl. unfold GetLine, held.
  rewrite (unread_open fd (set_needs_a_reset false w) f Hf), Hp, read_loop_broke
    by done.
  unfold set_unread. cbn [files set_needs_a_reset]. by rewrite Hf.
Qed.

(** No pending newline: every pending byte is appended, nothing reported. *)
Lemma GetLine_no_line f :
  files w !! fd = Some f →
  newline ∉ pending f →
  let e := match when_drained f with EndOfStream => errno w | Fails e => e end in
  GetLine fd buffer w =
    ((false, held w buffer ++ pending f, negb (e =? EAGAIN)),
     World false e (<[fd := File [] (when_drained f)]> (files w))).
Proof.
  intros Hf Hp. unfold GetLine, held.
  rewrite (unread_open fd (set_needs_a_reset false w) f Hf), read_loop_drained
    by done.
  unfold set_unread, read. cbn [files set_needs_a_reset]. rewrite Hf.
  cbn [files set_file]. rewrite lookup_insert_eq.
  cbn [pending when_drained]. by destruct (when_drained f).
Qed.

(** A descriptor that is not open: [read] fails with [EBADF]. *)
Lemma GetLine_bad_fd :
  files w !! fd = None →
  GetLine fd buffer w =
    ((false, held w buffer, true), World false EBADF (files w)).
Proof.
  intros Hf. unfold GetLine, held.
  rewrite (unread_closed fd (set_needs_a_reset false w) Hf). cbn [read_loop].
  unfold set_unread. cbn [files set_needs_a_reset]. rewrite Hf.
  unfold read. cbn [files set_needs_a_reset]. by rewrite Hf.
Qed.

(** End-of-stream after the pending bytes: whether it is reported depends
    on the value [errno] happens to hold, since a [read] that returns 0
    does not set it. *)
Lemma GetLine_end_of_stream f :
  files w !! fd = Some f →
  newline ∉ pending f →
  when_drained f = EndOfStream →
  retval_of (GetLine fd buffer w) = false
  ∧ error_of (GetLine fd buffer w) = negb (errno w =? EAGAIN)
  ∧ errno (world_of (GetLine fd buffer w)) = errno w.
Proof.
  intros Hf Hp Hd. rewrite (GetLine_no_line f Hf Hp). by rewrite Hd.
Qed.

(** The flag left behind is the value returned. *)
Lemma GetLine_flag :
  needs_a_reset (world_of (GetLine fd buffer w)) = retval_of (GetLine fd buffer w).
Proof.
  destruct (files w !! fd) as [f|] eqn:Hf.
  - destruct (read_loop_cases (pending f) []) as [(l & rest & Hp & Hl & _)|[Hp _]].
    + by rewrite (GetLine_line f l rest).
    + by rewrite (GetLine_no_line f).
  - by rewrite GetLine_bad_fd.
Qed.

(** A call that finds the flag clear only appends. *)
Lemma GetLine_appends :
  needs_a_reset w = false → buffer `prefix_of` buffer_of (GetLine fd buffer w).
Proof.
  intros Hflag. destruct (files w !! fd) as [f|] eqn:Hf.
  - destruct (read_loop_cases (pending f) []) as [(l & rest & Hp & Hl & _)|[Hp _]].
    + rewrite (GetLine_line f l rest) by done. unfold held. rewrite Hflag.
      by apply prefix_app_r.
    + rewrite (GetLine_no_line f) by done. unfold held. rewrite Hflag.
      by apply prefix_app_r.
  - rewrite GetLine_bad_fd by done. unfold held. by rewrite Hflag.
Qed.

(** A call that finds the flag set ignores what the buffer held. *)
Lemma GetLine_erases :
  needs_a_reset w = true → GetLine fd buffer w = GetLine fd [] w.
Proof. intros Hflag. unfold GetLine. by rewrite Hflag. Qed.

(** The invariant behind every reported line: what survives the entry of
    the next call holds no newline. *)
Lemma GetLine_held :
  newline ∉ held w buffer →
  newline ∉ held (world_of (GetLine fd buffer w)) (buffer_of (GetLine fd buffer w)).
Proof.
  intros Hh. destruct (files w !! fd) as [f|] eqn:Hf.
  - destruct (read_loop_cases (pending f) []) as [(l & rest & Hp & Hl & _)|[Hp _]].
    + rewrite (GetLine_line f l rest) by done. apply not_elem_of_nil.
    + rewrite (GetLine_no_line f) by done. unfold held; simpl.
      by apply not_elem_of_app.
  - rewrite GetLine_bad_fd by done. done.
Qed.

Lemma GetLine_reports_one_line :
  newline ∉ held w buffer →
  retval_of (GetLine fd buffer w) = true →
  one_line (buffer_of (GetLine fd buffer w)).
Proof.
  intros Hh. destruct (files w !! fd) as [f|] eqn:Hf.
  - destruct (read_loop_cases (pending f) []) as [(l & rest & Hp & Hl & _)|[Hp _]].
    + rewrite (GetLine_line f l rest) by done. intros _.
      exists (held w buffer ++ l). unfold buffer_of; simpl.
      split; [by rewrite app_assoc|]. by apply not_elem_of_app.
    + rewrite (GetLine_no_line f) by done. done.
  - rewrite GetLine_bad_fd by done. done.
Qed.
End one_call.

(** ** Sessions of polls *)

Lemma files_arrive fd a w f :
  files w !! fd = Some f →
  files (arrive fd a w) !! fd =
    Some (File (pending f ++ bytes a) (default (when_drained f) (change a))).
Proof.
  intros Hf. unfold arrive, deliver, hang_up. rewrite Hf.
  destruct (change a); cbn [files set_file default]; rewrite lookup_insert_eq; [|done].
  cbn [files set_file pending when_drained].
  by rewrite insert_insert_eq, lookup_insert_eq.
Qed.

Lemma flag_arrive fd a w : needs_a_reset (arrive fd a w) = needs_a_reset w.
Proof.
  unfold arrive, deliver, hang_up.
  destruct (files w !! fd) eqn:Hf; destruct (change a); simpl;
    rewrite ?lookup_insert_eq, ?Hf; done.
Qed.

Lemma errno_arrive fd a w : errno (arrive fd a w) = errno w.
Proof.
  unfold arrive, deliver, hang_up.
  destruct (files w !! fd) eqn:Hf; destruct (change a); simpl;
    rewrite ?lookup_insert_eq, ?Hf; done.
Qed.

Lemma held_arrive fd a w buffer : held (arrive fd a w) buffer = held w buffer.
Proof. unfold held. by rewrite flag_arrive. Qed.

Lemma delivered_cons a env : delivered (a :: env) = bytes a ++ delivered env.
Proof. done. Qed.

Lemma delivered_app env1 env2 :
  delivered (env1 ++ env2) = delivered env1 ++ delivered env2.
Proof. unfold delivered. by rewrite fmap_app, concat_app. Qed.

Lemma reported_cons c cs :
  reported (c :: cs) =
    if line_ready c then exit_buffer c :: reported cs else reported cs.
Proof.
  unfold reported. rewrite filter_cons.
  destruct (line_ready c); by case_decide.
Qed.

Section one_descriptor.
Context (fd : Z).

(** While no newline has arrived nothing is reported, and the buffer only
    ever holds a prefix of what has been handed over. *)
Lemma session_silent env buffer w f :
  files w !! fd = Some f →
  newline ∉ pending f ++ delivered env →
  Forall (λ c, line_ready c = false ∧
               exit_buffer c `prefix_of` held w buffer ++ pending f ++ delivered env)
         (session fd env buffer w).
Proof.
  revert buffer w f.
  induction env as [|a env IH]; intros buffer w f Hf Hnl; [by constructor|].
  rewrite delivered_cons in *.
  apply not_elem_of_app in Hnl as [Hp Hnl].
  apply not_elem_of_app in Hnl as [Ha Hd].
  cbn [session].
  pose proof (files_arrive fd a w f Hf) as Hf'.
  rewrite (GetLine_no_line _ _ _ _ Hf')
    by (cbn [pending]; apply not_elem_of_app; by split).
  cbn [pending when_drained]. unfold retval_of, buffer_of, error_of, world_of.
  cbn [fst snd]. rewrite held_arrive.
  constructor.
  - split; [done|]. cbn [exit_buffer].
    rewrite !app_assoc. apply prefix_app_r. by rewrite <- !app_assoc.
  - match goal with |- Forall _ (session _ _ ?b ?w') =>
      specialize (IH b w' (File [] (default (when_drained f) (change a)))) end.
    cbn [files] in IH. rewrite lookup_insert_eq in IH.
    specialize (IH eq_refl Hd). unfold held in IH at 1. cbn [needs_a_reset] in IH.
    cbn [pending] in IH. rewrite app_nil_l in IH.
    by rewrite <- !app_assoc in IH.
Qed.
(** The first call of a session sees the flag and the buffer it starts
    with. *)
Lemma session_entry env buffer w :
  match session fd env buffer w with
  | [] => True
  | c :: _ => entry_flag c = needs_a_reset w ∧ entry_buffer c = buffer
  end.
Proof. destruct env as [|a env]; [done|]. cbn [session]. by rewrite flag_arrive. Qed.

(** One newline among the bytes not yet handed over: exactly one call
    reports, and what it reports is everything up to that newline. *)
Lemma session_first_line env buffer w f pre post :
  files w !! fd = Some f →
  newline ∉ held w buffer →
  held w buffer ++ pending f ++ delivered env = pre ++ newline :: post →
  newline ∉ pre → newline ∉ post →
  (newline ∈ pending f → env ≠ []) →
  reports_once (session fd env buffer w) (pre ++ [newline]) post.
Proof.
  revert buffer w f.
  induction env as [|a env IH]; intros buffer w f Hf Hh Hall Hpre Hpost Hne.
  { exfalso. unfold delivered in Hall; cbn in Hall. rewrite app_nil_r in Hall.
    assert (newline ∈ held w buffer ++ pending f) as Hin
      by (rewrite Hall; apply elem_of_app; right; by left).
    apply elem_of_app in Hin as [Hin|Hin]; [done|]. by apply Hne. }
  rewrite delivered_cons in Hall. cbn [session].
  pose proof (files_arrive fd a w f Hf) as Hf'.
  destruct (read_loop_cases (pending f ++ bytes a) [])
    as [(l & rest & Hp & Hl & _)|[Hp _]].
  - rewrite (GetLine_line _ _ _ _ l rest Hf') by done.
    unfold retval_of, buffer_of, error_of, world_of. cbn [fst snd].
    rewrite held_arrive, flag_arrive, errno_arrive.
    assert (held w buffer ++ l = pre ∧ rest ++ delivered env = post) as [Hl1 Hl2].
    { apply first_newline_unique; [|by apply not_elem_of_app|done].
      rewrite <- Hall. rewrite <- !app_assoc. f_equal.
      rewrite (app_assoc (pending f)), Hp. by rewrite <- app_assoc. }
    assert (held w buffer ++ l ++ [newline] = pre ++ [newline]) as Hline
      by (by rewrite app_assoc, Hl1).
    rewrite Hline.
    match goal with |- reports_once (?c :: session _ _ ?b ?w') _ _ =>
      exists [], c, (session fd env b w');
      pose proof (session_silent env b w' (File rest (when_drained
        (File (pending f ++ bytes a) (default (when_drained f) (change a))))))
        as Hsil;
      pose proof (session_entry env b w') as Hent
    end.
    cbn [files pending needs_a_reset] in Hsil, Hent.
    rewrite lookup_insert_eq in Hsil. rewrite Hl2 in Hsil.
    specialize (Hsil eq_refl Hpost).
    split_and!; [done|by constructor|done|done|done|done].
  - rewrite (GetLine_no_line _ _ _ _ Hf') by done.
    unfold retval_of, buffer_of, error_of, world_of. cbn [fst snd pending].
    rewrite held_arrive.
    match goal with |- reports_once (?c :: session _ _ ?b ?w') _ _ =>
      destruct (IH b w' (File [] (default (when_drained f) (change a))))
        as (before & c' & after & Hs & Hb & Hr & Hx & Ha & Hn);
      [cbn [files]; by rewrite lookup_insert_eq
      |unfold held; cbn [needs_a_reset];
       by apply not_elem_of_app
      |unfold held; cbn [needs_a_reset pending];
       rewrite <- Hall; by rewrite <- !app_assoc
      |done|done
      |cbn [pending]; intros Hin; by apply not_elem_of_nil in Hin
      |exists (c :: before), c', after]
    end.
    rewrite Hs. split_and!; [done|by constructor|done..].
Qed.

Lemma reported_silent cs :
  Forall (λ c, line_ready c = false) cs → reported cs = [].
Proof.
  induction 1 as [|c cs Hc _ IH]; [done|]. by rewrite reported_cons, Hc.
Qed.

Lemma reported_once cs line rest :
  reports_once cs line rest → reported cs = [line].
Proof.
  intros (before & c & after & -> & Hb & Hr & Hx & Ha & _).
  unfold reported. rewrite filter_app, fmap_app, filter_cons_True by done.
  fold (reported before). rewrite reported_silent by done.
  cbn [fmap list_fmap app]. fold (reported after).
  rewrite reported_silent; [by rewrite Hx|].
  eapply Forall_impl; [exact Ha|]. by intros ? [? _].
Qed.
(** Two newline-terminated segments, with one more poll after the last
    arrival: both are reported, in order. *)
Lemma session_two_lines env last buffer w f A B :
  files w !! fd = Some f →
  pending f = [] →
  newline ∉ held w buffer →
  bytes last = [] →
  held w buffer ++ delivered env = A ++ newline :: B ++ [newline] →
  newline ∉ A → newline ∉ B →
  reported (session fd (env ++ [last]) buffer w) =
    [A ++ [newline]; B ++ [newline]].
Proof.
  revert buffer w f.
  induction env as [|a env IH]; intros buffer w f Hf Hp Hh Hlast Hall HA HB.
  { exfalso. unfold delivered in Hall; cbn in Hall. rewrite app_nil_r in Hall.
    apply Hh. rewrite Hall. apply elem_of_app; right; by left. }
  rewrite delivered_cons in Hall. cbn [app session].
  pose proof (files_arrive fd a w f Hf) as Hf'. rewrite Hp in Hf'.
  cbn [app] in Hf'.
  destruct (read_loop_cases (bytes a) []) as [(l & rest & Ha & Hl & _)|[Ha _]].
  - rewrite (GetLine_line _ _ _ _ l rest Hf') by done.
    unfold retval_of, buffer_of, error_of, world_of. cbn [fst snd].
    rewrite held_arrive, flag_arrive, errno_arrive.
    assert (held w buffer ++ l = A
            ∧ rest ++ delivered env = B ++ [newline]) as [Hl1 Hl2].
    { apply first_newline_unique; [|by apply not_elem_of_app|done].
      rewrite <- Hall, Ha. by rewrite <- !app_assoc. }
    rewrite reported_cons. cbn [line_ready exit_buffer].
    rewrite app_assoc, Hl1. f_equal.
    apply (reported_once _ _ []).
    eapply (session_first_line _ _ _ (File rest _) B []).
    + cbn [files]. by rewrite lookup_insert_eq.
    + unfold held; cbn [needs_a_reset]. apply not_elem_of_nil.
    + unfold held; cbn [needs_a_reset pending app].
      rewrite delivered_app, app_assoc, Hl2.
      unfold delivered; cbn [fmap list_fmap concat].
      by rewrite Hlast, !app_nil_r.
    + done.
    + apply not_elem_of_nil.
    + intros _. by destruct env.
  - rewrite (GetLine_no_line _ _ _ _ Hf') by done.
    unfold retval_of, buffer_of, error_of, world_of. cbn [fst snd pending].
    rewrite held_arrive, reported_cons. cbn [line_ready].
    eapply (IH _ _ (File [] _)).
    + cbn [files]. by rewrite lookup_insert_eq.
    + done.
    + unfold held; cbn [needs_a_reset]. by apply not_elem_of_app.
    + done.
    + unfold held at 1; cbn [needs_a_reset]. by rewrite <- app_assoc.
    + done.
    + done.
Qed.

(** Every line a session reports is one line, whatever the environment
    does, as long as nothing but a newline-free remainder is held at the
    start. *)
Lemma session_one_line env buffer w :
  newline ∉ held w buffer →
  Forall (λ c, line_ready c = true → one_line (exit_buffer c))
         (session fd env buffer w).
Proof.
  revert buffer w. induction env as [|a env IH]; intros buffer w Hh;
    [by constructor|].
  cbn [session]. rewrite <- (held_arrive fd a) in Hh. constructor.
  - cbn [line_ready exit_buffer]. by apply GetLine_reports_one_line.
  - apply IH. by apply GetLine_held.
Qed.

(** The flag each call finds is the previous call's return value. *)
Lemma session_flags env buffer w :
  entry_flag <$> session fd env buffer w =
    take (length env) (needs_a_reset w :: (line_ready <$> session fd env buffer w)).
Proof.
  revert buffer w. induction env as [|a env IH]; intros buffer w; [done|].
  cbn [session fmap list_fmap length take entry_flag line_ready].
  rewrite flag_arrive. f_equal.
  rewrite IH at 1. by rewrite GetLine_flag.
Qed.

(** A call that finds the flag clear keeps what the buffer held. *)
Lemma session_appends env buffer w :
  Forall (λ c, entry_flag c = false → entry_buffer c `prefix_of` exit_buffer c)
         (session fd env buffer w).
Proof.
  revert buffer w. induction env as [|a env IH]; intros buffer w;
    [by constructor|].
  cbn [session]. constructor; [|by apply IH].
  cbn [entry_flag entry_buffer exit_buffer]. apply GetLine_appends.
Qed.
End one_descriptor.

(** ** The line assembler as the specification describes it *)

(** C2, as stated, fails on the first call: the static flag starts out set,
    so a first call that finds nothing to read and follows no reported line
    still erases a buffer that held "abc". *)
Lemma C2_first_call_erases :
  session 3 [Arrival [] None] (text "abc") fresh_start
    = [Call true (text "abc") false [] false]
  ∧ text "abc" ≠ [].
Proof. split; [reflexivity|discriminate]. Qed.

(** C2 (amended): a call that finds the pending-reset flag clear -- a call
    other than the first whose predecessor reported no line -- and nothing
    to read (read would block) returns false with no error and leaves the
    buffer exactly as it was.  The buffer is erased at the start of the very
    first call and of each call that follows a call returning true, and on
    no other call: a call finding the flag clear only appends, a call
    finding it set behaves as if handed an empty buffer, and the flag a call
    finds is [true] at the first call and the previous return value after. *)
Theorem C2_buffer_kept_unless_reset :
  (∀ fd buffer w f,
     files w !! fd = Some f → pending f = [] → when_drained f = WouldBlock →
     needs_a_reset w = false →
     retval_of (GetLine fd buffer w) = false
     ∧ error_of (GetLine fd buffer w) = false
     ∧ buffer_of (GetLine fd buffer w) = buffer)
  ∧ (∀ fd buffer w,
       needs_a_reset w = false →
       buffer `prefix_of` buffer_of (GetLine fd buffer w))
  ∧ (∀ fd buffer w,
       needs_a_reset w = true → GetLine fd buffer w = GetLine fd [] w)
  ∧ (∀ fd env buffer e fs,
       let cs := session fd env buffer (initial_world e fs) in
       entry_flag <$> cs = take (length env) (true :: (line_ready <$> cs))).
Proof.
  split_and!.
  - intros fd buffer w f Hf Hp Hd Hflag.
    rewrite (GetLine_no_line fd buffer w f Hf) by (rewrite Hp; apply not_elem_of_nil).
    rewrite Hp, Hd. unfold held. rewrite Hflag.
    unfold retval_of, error_of, buffer_of; cbn [fst snd].
    by rewrite app_nil_r.
  - intros fd buffer w. apply GetLine_appends.
  - intros fd buffer w. apply GetLine_erases.
  - intros fd env buffer e fs. apply session_flags.
Qed.

(** A poll that finds the flag clear and nothing to read keeps "abc". *)
Lemma C2_buffer_kept_witness :
  let w := World false EAGAIN {[3 := File [] WouldBlock]} in
  retval_of (GetLine 3 (text "abc") w) = false
  ∧ error_of (GetLine 3 (text "abc") w) = false
  ∧ buffer_of (GetLine 3 (text "abc") w) = text "abc".
Proof.
  apply (proj1 C2_buffer_kept_unless_reset 3 (text "abc")
           (World false EAGAIN {[3 := File [] WouldBlock]}) (File [] WouldBlock));
    reflexivity.
Defined.

(** C3, as stated, fails: the reported line keeps its newline, and the
    buffer still holds the line when the reporting call has returned. *)
Lemma C3_line_keeps_newline_and_stays :
  let r := GetLine 3 [] (deliver 3 (text "a" ++ [newline]) fresh_start) in
  retval_of r = true
  ∧ buffer_of r = text "a" ++ [newline]
  ∧ buffer_of r ≠ text "a"
  ∧ buffer_of r ≠ [].
Proof. split_and!; [reflexivity|reflexivity|discriminate|discriminate]. Qed.

(** C3 (amended): when the bytes delivered to a drained descriptor across
    one or more polls contain exactly one newline, and the first poll finds
    the flag set or the buffer empty, exactly one call returns true; on its
    return the buffer holds the bytes preceding that newline followed by the
    newline itself; the buffer is emptied not then but on entry to the next
    call, after which it only holds bytes that followed the newline. *)
Theorem C3_single_newline_reported_once fd env buffer w f pre post :
  files w !! fd = Some f →
  pending f = [] →
  needs_a_reset w = true ∨ buffer = [] →
  delivered env = pre ++ newline :: post →
  newline ∉ pre →
  newline ∉ post →
  reports_once (session fd env buffer w) (pre ++ [newline]) post.
Proof.
  intros Hf Hp Hfresh Hall Hpre Hpost.
  assert (held w buffer = []) as Hh.
  { unfold held. destruct Hfresh as [->| ->]; [done|]. by destruct (needs_a_reset w). }
  apply (session_first_line fd env buffer w f); [done| | |done|done|].
  - rewrite Hh. apply not_elem_of_nil.
  - by rewrite Hh, Hp.
  - rewrite Hp. intros Hin. by apply not_elem_of_nil in Hin.
Qed.

(** "he", then "y\nyo", then nothing: one report, "hey\n"; "yo" stays behind. *)
Lemma C3_single_newline_witness :
  reports_once
    (session 3 [Arrival (text "he") None; Arrival (text "y" ++ [newline] ++ text "yo") None;
                Arrival [] None]
       (text "old") fresh_start)
    (text "hey" ++ [newline]) (text "yo").
Proof.
  apply (C3_single_newline_reported_once 3 _ _ fresh_start (File [] WouldBlock)
           (text "hey") (text "yo"));
    [reflexivity|reflexivity|by left|reflexivity|compute_done|compute_done].
Defined.

(** C6: two newline-terminated segments delivered to a drained descriptor,
    in whatever pieces, with one more poll after the last piece: exactly two
    calls return true, the first with exactly the first segment in the
    buffer, the second with exactly the second, in that order.  A call never
    takes bytes past the first newline it appends: they stay pending. *)
Theorem C6_two_segments_two_reports :
  (∀ fd env last buffer w f A B,
     files w !! fd = Some f →
     pending f = [] →
     needs_a_reset w = true ∨ buffer = [] →
     bytes last = [] →
     delivered env = (A ++ [newline]) ++ (B ++ [newline]) →
     newline ∉ A →
     newline ∉ B →
     let cs := session fd (env ++ [last]) buffer w in
     reported cs = [A ++ [newline]; B ++ [newline]]
     ∧ length (filter (λ c, line_ready c = true) cs) = 2%nat)
  ∧ (∀ fd buffer w f l rest,
       files w !! fd = Some f →
       pending f = l ++ newline :: rest →
       newline ∉ l →
       retval_of (GetLine fd buffer w) = true
       ∧ files (world_of (GetLine fd buffer w)) !! fd
           = Some (File rest (when_drained f))).
Proof.
  split.
  - intros fd env last buffer w f A B Hf Hp Hfresh Hlast Hall HA HB cs.
    assert (held w buffer = []) as Hh.
    { unfold held. destruct Hfresh as [->| ->]; [done|]. by destruct (needs_a_reset w). }
    assert (reported cs = [A ++ [newline]; B ++ [newline]]) as Hrep.
    { apply (session_two_lines fd env last buffer w f A B); try done.
      - rewrite Hh. apply not_elem_of_nil.
      - rewrite Hh, Hall. by rewrite <- !app_assoc. }
    split; [done|].
    apply (f_equal length) in Hrep. unfold reported in Hrep.
    by rewrite length_fmap in Hrep.
  - intros fd buffer w f l rest Hf Hp Hl.
    rewrite (GetLine_line fd buffer w f l rest) by done.
    unfold retval_of, world_of; cbn [fst snd files].
    by rewrite lookup_insert_eq.
Qed.

(** "A\nB\n" delivered at once and polled twice. *)
Lemma C6_two_segments_witness :
  let cs := session 3 ([Arrival (text "A" ++ [newline] ++ text "B" ++ [newline]) None]
                         ++ [Arrival [] None]) [] fresh_start in
  reported cs = [text "A" ++ [newline]; text "B" ++ [newline]]
  ∧ length (filter (λ c, line_ready c = true) cs) = 2%nat.
Proof.
  apply (proj1 C6_two_segments_two_reports 3 _ (Arrival [] None) [] fresh_start
           (File [] WouldBlock) (text "A") (text "B"));
    [reflexivity|reflexivity|by left|reflexivity|reflexivity
    |compute_done|compute_done].
Defined.

(** C10: the pending-reset flag is one piece of state for every caller and
    descriptor, set at program start.  The first call erases whatever buffer
    it is handed; after a call that returned true the next call erases the
    buffer it is handed, on whichever descriptor and with whichever buffer.
    Two channels therefore interfere: a line reported on descriptor 3 makes
    the next poll of descriptor 4 drop the "he" its caller had gathered. *)
Theorem C10_one_flag_for_all_callers :
  (∀ e fs, needs_a_reset (initial_world e fs) = true)
  ∧ (∀ e fs fd buffer,
       GetLine fd buffer (initial_world e fs) = GetLine fd [] (initial_world e fs))
  ∧ (∀ fd1 buffer1 w fd2 buffer2,
       retval_of (GetLine fd1 buffer1 w) = true →
       let w' := world_of (GetLine fd1 buffer1 w) in
       GetLine fd2 buffer2 w' = GetLine fd2 [] w')
  ∧ (buffer_of (GetLine 4 (text "he") two_channels) = text "hello" ++ [newline]
     ∧ retval_of (GetLine 3 [] two_channels) = true
     ∧ buffer_of (GetLine 4 (text "he") (world_of (GetLine 3 [] two_channels)))
         = text "llo" ++ [newline]).
Proof.
  split_and!.
  - done.
  - intros e fs fd buffer. by apply GetLine_erases.
  - intros fd1 buffer1 w fd2 buffer2 Hr w'. apply GetLine_erases.
    unfold w'. by rewrite GetLine_flag.
  - reflexivity.
  - reflexivity.
  - reflexivity.
Qed.

(** After the report on descriptor 3, the poll of descriptor 4 drops "he". *)
Lemma C10_one_flag_witness :
  let w' := world_of (GetLine 3 [] two_channels) in
  GetLine 4 (text "he") w' = GetLine 4 [] w'.
Proof.
  apply (proj1 (proj2 (proj2 C10_one_flag_for_all_callers)) 3 [] two_channels 4 (text "he")).
  reflexivity.
Defined.

(** ** The duplex loop *)

Lemma uint64_incr_iter n : Nat.iter n uint64_incr 0 = Z.of_nat n mod UINT64_MODULUS.
Proof.
  induction n as [|n IH]; [done|].
  rewrite Nat.iter_succ, IH. unfold uint64_incr.
  rewrite Zplus_mod_idemp_l. f_equal. lia.
Qed.

Lemma outbound_inj : Inj (=) (=) outbound.
Proof.
  intros x y Heq. unfold outbound in Heq.
  apply app_inv_head, app_inv_tail in Heq.
  apply (f_equal string_of_list_ascii) in Heq.
  rewrite !string_of_list_ascii_of_string in Heq.
  by apply (inj pretty).
Qed.

Lemma written_app l1 l2 : written (l1 ++ l2) = written l1 ++ written l2.
Proof. apply omap_app. Qed.

Lemma exchanges_app l1 l2 : exchanges (l1 ++ l2) = exchanges l1 ++ exchanges l2.
Proof. apply omap_app. Qed.

Section duplex_loop.
Context (to_fd from_fd : Z).

(** What one iteration does to the locals and to the log. *)
Lemma iteration_effect t m :
  let w := arrive from_fd (child_output t)
             (write (write_outcome t) (outbound (message_counter (vars m))) (os m)).2 in
  let r := GetLine from_fd (buffer (vars m)) w in
  iteration to_fd from_fd t m =
    (if error_of r then Terminated else Running,
     Machine (world_of r)
       (Locals (uint64_incr (message_counter (vars m))) (buffer_of r) (error_of r))
       (log m ++ iteration_log to_fd from_fd (message_counter (vars m))
                   (retval_of r) (buffer_of r) (error_of r))).
Proof.
  intros w r. unfold iteration, iteration_log. fold w. fold r.
  destruct (error_of r), (retval_of r); cbn [app];
    by rewrite <- ?app_assoc.
Qed.

Lemma iteration_status t m :
  (iteration to_fd from_fd t m).1 = Terminated
  ↔ error (vars (iteration to_fd from_fd t m).2) = true.
Proof.
  rewrite iteration_effect. cbn zeta.
  destruct (error_of _); cbn; split; congruence.
Qed.

Lemma written_iteration_log c rv b err :
  written (iteration_log to_fd from_fd c rv b err) = [outbound c].
Proof. by destruct rv, err. Qed.

Lemma exchanges_iteration_log c rv b err :
  exchanges (iteration_log to_fd from_fd c rv b err)
    = [EWrite to_fd (outbound c); EGetLine from_fd].
Proof. by destruct rv, err. Qed.

(** The iterations a run goes through: their number, the counter they
    leave and the messages and polls they log. *)
Lemma main_loop_run env m :
  let c0 := message_counter (vars m) in
  let res := main_loop to_fd from_fd env m in
  ∃ n : nat,
    (n ≤ length env)%nat
    ∧ (res.1 = Running → n = length env)
    ∧ message_counter (vars res.2) = Nat.iter n uint64_incr c0
    ∧ written (log res.2) =
        written (log m) ++ ((λ i, outbound (Nat.iter i uint64_incr c0)) <$> seq 0 n)
    ∧ exchanges (log res.2) =
        exchanges (log m) ++
        concat ((λ i, [EWrite to_fd (outbound (Nat.iter i uint64_incr c0));
                       EGetLine from_fd]) <$> seq 0 n).
Proof.
  revert m. induction env as [|t env IH]; intros m c0 res.
  { exists 0%nat. subst res. cbn. by rewrite !app_nil_r. }
  subst res. cbn [main_loop]. rewrite iteration_effect. cbn zeta.
  set (r := GetLine _ _ _). destruct (error_of r) eqn:Herr.
  - exists 1%nat. cbn [fst snd length vars log message_counter].
    split_and!; [lia|done|done|..].
    + by rewrite written_app, written_iteration_log.
    + by rewrite exchanges_app, exchanges_iteration_log.
  - match goal with |- context [main_loop _ _ env ?m1] =>
      destruct (IH m1) as (n & Hn & Hrun & Hc & Hw & Hx) end.
    cbn [vars log message_counter] in Hc, Hw, Hx.
    exists (S n). cbn [length]. split_and!.
    + lia.
    + intros Hr. by rewrite Hrun.
    + rewrite Hc. by rewrite Nat.iter_succ_r.
    + rewrite Hw, written_app, written_iteration_log, <- app_assoc.
      f_equal. cbn [seq fmap list_fmap app]. f_equal.
      rewrite <- fmap_S_seq, <- list_fmap_compose.
      apply list_fmap_ext. intros _ i _. unfold compose. by rewrite Nat.iter_succ_r.
    + rewrite Hx, exchanges_app, exchanges_iteration_log, <- app_assoc.
      f_equal. cbn [seq fmap list_fmap concat app]. do 2 f_equal.
      rewrite <- fmap_S_seq, <- list_fmap_compose. f_equal.
      apply list_fmap_ext. intros _ i _. unfold compose. by rewrite Nat.iter_succ_r.
Qed.
Lemma quiet_iteration m :
  calm from_fd m →
  (iteration to_fd from_fd quiet_turn m).1 = Running
  ∧ calm from_fd (iteration to_fd from_fd quiet_turn m).2.
Proof.
  intros (d & Hf & Hd). rewrite iteration_effect. cbn zeta.
  cbn [quiet_turn write_outcome child_output write snd].
  pose proof (files_arrive from_fd (Arrival [] None) (os m) _ Hf) as Hf'.
  cbn [pending bytes change default when_drained app] in Hf'.
  rewrite (GetLine_no_line _ _ _ _ Hf') by apply not_elem_of_nil.
  cbn [pending when_drained]. rewrite errno_arrive.
  unfold error_of, world_of. cbn [fst snd].
  destruct Hd as [->|[-> He]].
  - split; [done|]. exists WouldBlock. cbn [os files].
    rewrite lookup_insert_eq. split; [done|by left].
  - rewrite He. split; [done|]. exists EndOfStream. cbn [os files errno].
    rewrite lookup_insert_eq. split; [done|by right].
Qed.

Lemma quiet_run n m :
  calm from_fd m → (main_loop to_fd from_fd (replicate n quiet_turn) m).1 = Running.
Proof.
  revert m. induction n as [|n IH]; intros m Hm; [done|].
  cbn [replicate main_loop].
  destruct (quiet_iteration m Hm) as [Hr Hc].
  destruct (iteration to_fd from_fd quiet_turn m) as [st m']. cbn in Hr, Hc.
  subst st. by apply IH.
Qed.

(** From the initial locals the counter after [n] iterations is [n]
    modulo 2^64, and so are the numbers in the messages. *)
Lemma main_loop_from_start env w :
  let res := main_loop to_fd from_fd env (initial_machine w) in
  ∃ n : nat,
    (n ≤ length env)%nat
    ∧ (res.1 = Running → n = length env)
    ∧ message_counter (vars res.2) = Z.of_nat n mod UINT64_MODULUS
    ∧ written (log res.2) =
        (λ i, outbound (Z.of_nat i mod UINT64_MODULUS)) <$> seq 0 n
    ∧ exchanges (log res.2) =
        concat ((λ i, [EWrite to_fd (outbound (Z.of_nat i mod UINT64_MODULUS));
                       EGetLine from_fd]) <$> seq 0 n).
Proof.
  intros res.
  destruct (main_loop_run env (initial_machine w)) as (n & Hn & Hrun & Hc & Hw & Hx).
  fold res in Hrun, Hc, Hw, Hx.
  change (written (log (initial_machine w))) with (@nil (list ascii)) in Hw.
  change (exchanges (log (initial_machine w))) with (@nil event) in Hx.
  change (message_counter (vars (initial_machine w))) with 0 in Hc, Hw, Hx.
  rewrite app_nil_l in Hw, Hx.
  exists n. split_and!; [done|done|..].
  - by rewrite Hc, uint64_incr_iter.
  - rewrite Hw. apply list_fmap_ext. intros _ i _. by rewrite uint64_incr_iter.
  - rewrite Hx. f_equal. apply list_fmap_ext. intros _ i _.
    by rewrite uint64_incr_iter.
Qed.

(** The messages of a run that is still going when the environment's
    prefix ends. *)
Lemma written_running env w i :
  (main_loop to_fd from_fd env (initial_machine w)).1 = Running →
  (i < length env)%nat →
  written (log (main_loop to_fd from_fd env (initial_machine w)).2) !! i
    = Some (outbound (Z.of_nat i mod UINT64_MODULUS)).
Proof.
  intros Hrun Hi.
  destruct (main_loop_from_start env w) as (n & _ & Hn & _ & Hw & _).
  cbn zeta in Hn, Hw. rewrite Hw, (Hn Hrun), list_lookup_fmap.
  by rewrite lookup_seq_lt.
Qed.
Lemma received_iteration_log c rv b err :
  received (iteration_log to_fd from_fd c rv b err) = if rv then [b] else [].
Proof. by destruct rv, err. Qed.

(** Every line shown in the RX window is one line. *)
Lemma main_loop_received env m :
  newline ∉ held (os m) (buffer (vars m)) →
  Forall one_line (received (log m)) →
  Forall one_line (received (log (main_loop to_fd from_fd env m).2)).
Proof.
  revert m. induction env as [|t env IH]; intros m Hh Hlog; [done|].
  cbn [main_loop]. rewrite iteration_effect. cbn zeta.
  set (w := arrive from_fd _ _). set (r := GetLine from_fd _ w).
  assert (held w (buffer (vars m)) = held (os m) (buffer (vars m))) as Hw.
  { unfold w. rewrite held_arrive. unfold held. by destruct (write_outcome t). }
  assert (Forall one_line (received (log m ++ iteration_log to_fd from_fd
            (message_counter (vars m)) (retval_of r) (buffer_of r) (error_of r))))
    as Hlog'.
  { unfold received. rewrite omap_app. apply Forall_app. split; [done|].
    fold (received (iteration_log to_fd from_fd (message_counter (vars m))
            (retval_of r) (buffer_of r) (error_of r))).
    rewrite received_iteration_log. destruct (retval_of r) eqn:Hr; [|done].
    constructor; [|done]. apply GetLine_reports_one_line; [by rewrite Hw|done]. }
  destruct (error_of r); [done|].
  apply IH; [|done]. cbn [os vars buffer].
  apply GetLine_held. by rewrite Hw.
Qed.
End duplex_loop.

Lemma fresh_start_calm : calm 3 (initial_machine fresh_start).
Proof. exists WouldBlock. split; [reflexivity|by left]. Qed.

Lemma uint64_distinct (i j : Z) :
  0 < j - i < UINT64_MODULUS → i mod UINT64_MODULUS ≠ j mod UINT64_MODULUS.
Proof.
  intros Hij Heq.
  assert ((j - i) mod UINT64_MODULUS = 0) as H0
    by (by rewrite Zminus_mod, Heq, Z.sub_diag).
  rewrite Z.mod_small in H0 by lia. lia.
Qed.

(** The run of 2^64 + 1 quiet iterations, message by message. *)
Lemma run_past_the_wrap (i : nat) :
  (i ≤ Z.to_nat UINT64_MODULUS)%nat →
  written (log (main_loop 4 3 (replicate (S (Z.to_nat UINT64_MODULUS)) quiet_turn)
                  (initial_machine fresh_start)).2) !! i
    = Some (outbound (Z.of_nat i mod UINT64_MODULUS)).
Proof.
  intros Hi. apply written_running.
  - apply quiet_run, fresh_start_calm.
  - rewrite length_replicate. lia.
Qed.

(** C9: every line GetLine reports consists of bytes that are not newlines
    followed by one newline, its final byte: no embedded newline, and the
    terminator is always kept.  This holds for a single call whenever what
    the call keeps of the buffer it is handed holds no newline; that is the
    case at every call of a caller that hands back the buffer the previous
    call left, from program start on and whatever arrives; and so it holds
    for every line [main] shows in the RX window. *)
Theorem C9_reported_line_ends_in_its_only_newline :
  (∀ fd buffer w,
     newline ∉ held w buffer →
     retval_of (GetLine fd buffer w) = true →
     one_line (buffer_of (GetLine fd buffer w))
     ∧ last (buffer_of (GetLine fd buffer w)) = Some newline
     ∧ length (filter (λ x, x = newline) (buffer_of (GetLine fd buffer w))) = 1%nat)
  ∧ (∀ fd env buffer e fs,
       Forall (λ c, line_ready c = true →
                    one_line (exit_buffer c)
                    ∧ last (exit_buffer c) = Some newline
                    ∧ length (filter (λ x, x = newline) (exit_buffer c)) = 1%nat)
              (session fd env buffer (initial_world e fs)))
  ∧ (∀ to_fd from_fd env e fs,
       Forall one_line
         (received (log (main_loop to_fd from_fd env
                           (initial_machine (initial_world e fs))).2))).
Proof.
  assert (∀ s, one_line s →
               one_line s ∧ last s = Some newline
               ∧ length (filter (λ x, x = newline) s) = 1%nat) as Hshape.
  { intros s Hs. split; [done|].
    destruct Hs as (l & -> & Hl). split; [by rewrite last_snoc|].
    rewrite filter_app, length_app.
    replace (filter (λ x, x = newline) l) with (@nil ascii); [done|].
    symmetry. clear -Hl. induction l as [|x l IH]; [done|].
    apply not_elem_of_cons in Hl as [Hx Hl].
    rewrite filter_cons_False by congruence. by apply IH. }
  split_and!.
  - intros fd buffer w Hh Hr. by apply Hshape, GetLine_reports_one_line.
  - intros fd env buffer e fs.
    eapply Forall_impl; [apply session_one_line; apply not_elem_of_nil|].
    intros c Hc Hr. by apply Hshape, Hc.
  - intros to_fd from_fd env e fs. apply main_loop_received.
    + apply not_elem_of_nil.
    + constructor.
Qed.

(** A caller holding "he" receives "llo\nyo": the report is "hello\n". *)
Lemma C9_reported_line_witness :
  let r := GetLine 3 (text "he") (deliver 3 (text "llo" ++ [newline] ++ text "yo")
                                    (World false EAGAIN {[3 := File [] WouldBlock]})) in
  one_line (buffer_of r)
  ∧ last (buffer_of r) = Some newline
  ∧ length (filter (λ x, x = newline) (buffer_of r)) = 1%nat.
Proof.
  apply (proj1 C9_reported_line_ends_in_its_only_newline 3 (text "he"));
    [compute_done|reflexivity].
Defined.

(** C1 (the code departs from the claim): once a poll has found nothing to
    read, [errno] holds [EAGAIN]; when the child's output then reaches
    end-of-stream, [read] returns 0 without touching [errno], the test
    [errno != EAGAIN] fails, and GetLine answers exactly as for "no data":
    false, no error.  The loop of [main] then never leaves by [break],
    however many iterations follow. *)
Theorem C1_end_of_stream_reported_as_no_data :
  (let w := hang_up 3 EndOfStream (world_of (GetLine 3 [] fresh_start)) in
   read 3 w = ((0, None), w)
   ∧ (GetLine 3 [] w).1 = (false, [], false))
  ∧ (∀ n : nat,
       let env := quiet_turn :: Turn WroteAll (Arrival [] (Some EndOfStream))
                    :: replicate n quiet_turn in
       let res := main_loop 4 3 env (initial_machine fresh_start) in
       res.1 = Running ∧ length (written (log res.2)) = S (S n)).
Proof.
  split; [split; reflexivity|].
  intros n env res.
  assert (res.1 = Running) as Hrun.
  { subst res env. cbn [main_loop].
    destruct (iteration 4 3 quiet_turn (initial_machine fresh_start))
      as [st1 m1] eqn:H1.
    vm_compute in H1. injection H1 as <- <-.
    match goal with |- context [iteration 4 3 ?t ?m] =>
      destruct (iteration 4 3 t m) as [st2 m2] eqn:H2 end.
    vm_compute in H2. injection H2 as <- <-.
    apply quiet_run. exists EndOfStream. split; [reflexivity|by right]. }
  split; [done|].
  destruct (main_loop_from_start 4 3 env (initial_machine fresh_start).(os))
    as (k & _ & Hk & _ & Hw & _).
  cbn zeta in Hk, Hw. change (initial_machine (os (initial_machine fresh_start)))
    with (initial_machine fresh_start) in Hk, Hw. fold res in Hk, Hw.
  rewrite Hw, length_fmap, length_seq, (Hk Hrun).
  subst env. cbn [length]. by rewrite length_replicate.
Qed.

(** C4, as stated, fails: a write that fails (or is cut short) is not
    noticed; the iteration goes on to poll and the loop to its next
    iteration. *)
Lemma C4_failed_write_goes_unnoticed :
  let env := [Turn (WriteFailed EINTR) (Arrival [] None);
              Turn (WroteOnly 3) (Arrival [] None)] in
  let res := main_loop 4 3 env (initial_machine fresh_start) in
  res.1 = Running
  ∧ error (vars res.2) = false
  ∧ written (log res.2) = [outbound 0; outbound 1].
Proof. split_and!; reflexivity. Qed.

Lemma GetLine_errno_irrelevant fd buffer w1 w2 f :
  needs_a_reset w1 = needs_a_reset w2 →
  files w1 !! fd = Some f →
  files w2 !! fd = Some f →
  when_drained f ≠ EndOfStream →
  (GetLine fd buffer w1).1 = (GetLine fd buffer w2).1.
Proof.
  intros Hflag Hf1 Hf2 Hd.
  destruct (read_loop_cases (pending f) []) as [(l & rest & Hp & Hl & _)|[Hp _]].
  - rewrite (GetLine_line fd buffer w1 f l rest), (GetLine_line fd buffer w2 f l rest)
      by done.
    unfold held. by rewrite Hflag.
  - rewrite (GetLine_no_line fd buffer w1 f), (GetLine_no_line fd buffer w2 f) by done.
    unfold held. rewrite Hflag. by destruct (when_drained f).
Qed.

(** C4 (amended): the result of the write is discarded.  The loop leaves an
    iteration by [break] exactly when GetLine set [error]; as long as the
    from-child descriptor is open and not at end-of-stream, the status, the
    locals and the log of the iteration are the same whatever the write did
    (success, short write or failure); and when the poll would block, or
    finds a line, after the pending bytes, the loop goes on. *)
Theorem C4_write_result_is_discarded to_fd from_fd :
  (∀ t m,
     (iteration to_fd from_fd t m).1 = Terminated
     ↔ error (vars (iteration to_fd from_fd t m).2) = true)
  ∧ (∀ r1 r2 a m f,
       files (os m) !! from_fd = Some f →
       default (when_drained f) (change a) ≠ EndOfStream →
       let i1 := iteration to_fd from_fd (Turn r1 a) m in
       let i2 := iteration to_fd from_fd (Turn r2 a) m in
       i1.1 = i2.1 ∧ vars i1.2 = vars i2.2 ∧ log i1.2 = log i2.2)
  ∧ (∀ r a m f,
       files (os m) !! from_fd = Some f →
       default (when_drained f) (change a) = WouldBlock →
       (iteration to_fd from_fd (Turn r a) m).1 = Running).
Proof.
  split_and!.
  - apply iteration_status.
  - intros r1 r2 a m f Hf Hd i1 i2. subst i1 i2.
    rewrite !iteration_effect. cbn zeta. cbn [write_outcome child_output].
    set (s := outbound _).
    assert (∀ r, files (write r s (os m)).2 = files (os m)
                 ∧ needs_a_reset (write r s (os m)).2 = needs_a_reset (os m))
      as Hwr by (by intros []).
    assert (∀ r, files (arrive from_fd a (write r s (os m)).2) !! from_fd
                 = Some (File (pending f ++ bytes a) (default (when_drained f) (change a))))
      as Hfa.
    { intros r. apply files_arrive. by rewrite (proj1 (Hwr r)). }
    assert ((GetLine from_fd (buffer (vars m)) (arrive from_fd a (write r1 s (os m)).2)).1
            = (GetLine from_fd (buffer (vars m)) (arrive from_fd a (write r2 s (os m)).2)).1)
      as Heq.
    { eapply GetLine_errno_irrelevant; [|apply Hfa|apply Hfa|done].
      rewrite !flag_arrive. by rewrite (proj2 (Hwr r1)), (proj2 (Hwr r2)). }
    unfold error_of, retval_of, buffer_of. rewrite Heq. cbn [fst snd vars log].
    by destruct ((GetLine _ _ _).1.2).
  - intros r a m f Hf Hd.
    rewrite iteration_effect. cbn zeta. cbn [write_outcome child_output fst].
    set (s := outbound _).
    assert (files (write r s (os m)).2 = files (os m)) as Hwr by (by destruct r).
    pose proof (files_arrive from_fd a (write r s (os m)).2 f) as Hfa.
    rewrite Hwr in Hfa. specialize (Hfa Hf). rewrite Hd in Hfa.
    destruct (read_loop_cases (pending f ++ bytes a) [])
      as [(l & rest & Hp & Hl & _)|[Hp _]].
    + by rewrite (GetLine_line _ _ _ _ l rest Hfa).
    + by rewrite (GetLine_no_line _ _ _ _ Hfa).
Qed.

(** A write failing with [EPIPE] and a complete write lead to the same
    iteration when the child is silent. *)
Lemma C4_write_result_witness :
  let i1 := iteration 4 3 (Turn (WriteFailed EPIPE) (Arrival [] None))
              (initial_machine fresh_start) in
  let i2 := iteration 4 3 (Turn WroteAll (Arrival [] None))
              (initial_machine fresh_start) in
  i1.1 = i2.1 ∧ vars i1.2 = vars i2.2 ∧ log i1.2 = log i2.2.
Proof.
  apply (proj1 (proj2 (C4_write_result_is_discarded 4 3))
           (WriteFailed EPIPE) WroteAll (Arrival [] None)
           (initial_machine fresh_start) (File [] WouldBlock));
    [reflexivity|discriminate].
Defined.

(** C5, as stated, fails at iteration 2^64: the counter is a [uint64_t], so
    after 2^64 iterations it is 0 again and the message of iteration 2^64 is
    "Line: 0", the message of iteration 0, not "Line: 18446744073709551616". *)
Lemma C5_counter_wraps_to_zero :
  let res := main_loop 4 3 (replicate (S (Z.to_nat UINT64_MODULUS)) quiet_turn)
               (initial_machine fresh_start) in
  written (log res.2) !! Z.to_nat UINT64_MODULUS = Some (outbound 0)
  ∧ written (log res.2) !! 0%nat = Some (outbound 0)
  ∧ outbound 0 ≠ outbound UINT64_MODULUS.
Proof.
  intros res. subst res. split_and!.
  - rewrite run_past_the_wrap by lia. rewrite Z2Nat.id by done.
    by rewrite Z.mod_same.
  - rewrite run_past_the_wrap by lia. done.
  - intros Heq. by apply outbound_inj in Heq.
Qed.

(** C5 (amended): the counter starts at 0 and is incremented once per
    iteration modulo 2^64.  The text written in iteration [i] is "Line: "
    followed by the decimal value of [i mod 2^64] and a newline -- for
    [i < 2^64] the decimal value of [i] itself -- and two iterations fewer
    than 2^64 apart never write the same counter value. *)
Theorem C5_outbound_text_and_counter to_fd from_fd env w :
  let res := main_loop to_fd from_fd env (initial_machine w) in
  message_counter (vars (initial_machine w)) = 0
  ∧ ∃ n : nat,
      (n ≤ length env)%nat
      ∧ (res.1 = Running → n = length env)
      ∧ length (written (log res.2)) = n
      ∧ message_counter (vars res.2) = Z.of_nat n mod UINT64_MODULUS
      ∧ (∀ i : nat, (i < n)%nat →
           written (log res.2) !! i
             = Some (text "Line: "
                       ++ text (pretty (Z.of_nat i mod UINT64_MODULUS))
                       ++ [newline]))
      ∧ (∀ i : nat, (i < n)%nat → Z.of_nat i < UINT64_MODULUS →
           written (log res.2) !! i
             = Some (text "Line: " ++ text (pretty (Z.of_nat i)) ++ [newline]))
      ∧ (∀ i j : nat, (i < j < n)%nat → Z.of_nat j - Z.of_nat i < UINT64_MODULUS →
           written (log res.2) !! i ≠ written (log res.2) !! j).
Proof.
  intros res. split; [done|].
  destruct (main_loop_from_start to_fd from_fd env w) as (n & Hn & Hrun & Hc & Hw & _).
  fold res in Hrun, Hc, Hw.
  assert (∀ i : nat, (i < n)%nat →
            written (log res.2) !! i = Some (outbound (Z.of_nat i mod UINT64_MODULUS)))
    as Hi.
  { intros i Hlt. by rewrite Hw, list_lookup_fmap, lookup_seq_lt. }
  exists n. split_and!; [done|done|by rewrite Hw, length_fmap, length_seq|done|..].
  - intros i Hlt. by rewrite Hi.
  - intros i Hlt Hsmall. rewrite Hi by done. by rewrite Z.mod_small by lia.
  - intros i j Hij Hclose. rewrite !Hi by lia. intros Heq.
    apply (inj Some), outbound_inj in Heq.
    by apply (uint64_distinct (Z.of_nat i) (Z.of_nat j)); [lia|].
Qed.

(** Three quiet iterations: the third message is "Line: 2". *)
Lemma C5_outbound_text_witness :
  let res := main_loop 4 3 [quiet_turn; quiet_turn; quiet_turn]
               (initial_machine fresh_start) in
  res.1 = Running
  ∧ written (log res.2) !! 2%nat = Some (text "Line: 2" ++ [newline])
  ∧ written (log res.2) !! 0%nat ≠ written (log res.2) !! 2%nat.
Proof.
  intros res.
  destruct (C5_outbound_text_and_counter 4 3 [quiet_turn; quiet_turn; quiet_turn]
              fresh_start) as (_ & n & _ & Hrun & _ & _ & _ & Htext & Hdiff).
  fold res in Hrun, Htext, Hdiff.
  assert (res.1 = Running) as Hr by reflexivity.
  specialize (Hrun Hr). subst n. split_and!.
  - done.
  - apply (Htext 2%nat); [cbn; lia|reflexivity].
  - apply (Hdiff 0%nat 2%nat); [cbn; lia|reflexivity].
Defined.

(** C8, as stated, fails across the wrap of the 64-bit counter: the message
    with counter value 0 is written right after the one with counter value
    2^64 - 1, so the counter values are not strictly ascending there. *)
Lemma C8_counter_order_breaks_at_wrap :
  let res := main_loop 4 3 (replicate (S (Z.to_nat UINT64_MODULUS)) quiet_turn)
               (initial_machine fresh_start) in
  written (log res.2) !! Z.to_nat (UINT64_MODULUS - 1)
    = Some (outbound (UINT64_MODULUS - 1))
  ∧ written (log res.2) !! S (Z.to_nat (UINT64_MODULUS - 1)) = Some (outbound 0)
  ∧ 0 < UINT64_MODULUS - 1.
Proof.
  intros res. subst res. split_and!.
  - rewrite run_past_the_wrap by (apply Z2Nat.inj_le; done).
    rewrite Z2Nat.id by done. done.
  - replace (S (Z.to_nat (UINT64_MODULUS - 1))) with (Z.to_nat UINT64_MODULUS)
      by (rewrite <- Z2Nat.inj_succ by done; done).
    rewrite run_past_the_wrap by lia. rewrite Z2Nat.id by done.
    by rewrite Z.mod_same.
  - done.
Qed.

(** C8 (amended): in every iteration the write of the outbound message comes
    before the poll of the from-child descriptor, with no other write or
    poll between or after them; over a run the writes and polls alternate,
    iteration by iteration, the [i]-th write carrying counter value
    [i mod 2^64]: ascending by one from iteration to iteration, strictly
    ascending among iterations that lie in the same span of 2^64. *)
Theorem C8_write_precedes_poll to_fd from_fd :
  (∀ t m, ∃ shown,
     log (iteration to_fd from_fd t m).2 =
       log m ++ EWrite to_fd (outbound (message_counter (vars m)))
             :: EAddLine tx_window (outbound (message_counter (vars m)))
             :: EGetLine from_fd :: shown
     ∧ exchanges shown = [])
  ∧ (∀ env w,
       let res := main_loop to_fd from_fd env (initial_machine w) in
       ∃ n : nat,
         (n ≤ length env)%nat
         ∧ (res.1 = Running → n = length env)
         ∧ exchanges (log res.2) =
             concat ((λ i, [EWrite to_fd (outbound (Z.of_nat i mod UINT64_MODULUS));
                            EGetLine from_fd]) <$> seq 0 n))
  ∧ (∀ i j : nat,
       (i < j)%nat →
       Z.of_nat i `div` UINT64_MODULUS = Z.of_nat j `div` UINT64_MODULUS →
       uint64_incr (Z.of_nat i mod UINT64_MODULUS) = Z.of_nat (S i) mod UINT64_MODULUS
       ∧ Z.of_nat i mod UINT64_MODULUS < Z.of_nat j mod UINT64_MODULUS).
Proof.
  split_and!.
  - intros t m. rewrite iteration_effect. cbn zeta. cbn [snd log].
    unfold iteration_log. cbn [app].
    eexists. split; [reflexivity|]. by destruct (retval_of _), (error_of _).
  - intros env w res.
    destruct (main_loop_from_start to_fd from_fd env w) as (n & Hn & Hrun & _ & _ & Hx).
    by exists n.
  - intros i j Hij Hdiv. split.
    + unfold uint64_incr. rewrite Zplus_mod_idemp_l. f_equal. lia.
    + pose proof (Z.div_mod (Z.of_nat i) UINT64_MODULUS) as Hi.
      pose proof (Z.div_mod (Z.of_nat j) UINT64_MODULUS) as Hj.
      rewrite Hdiv in Hi. assert (UINT64_MODULUS ≠ 0) as Hne by done.
      specialize (Hi Hne). specialize (Hj Hne). lia.
Qed.

(** Iterations 1 and 5 lie in the same span: their counters ascend. *)
Lemma C8_write_precedes_poll_witness :
  uint64_incr (Z.of_nat 1 mod UINT64_MODULUS) = Z.of_nat 2 mod UINT64_MODULUS
  ∧ Z.of_nat 1 mod UINT64_MODULUS < Z.of_nat 5 mod UINT64_MODULUS.
Proof.
  apply (proj2 (proj2 (C8_write_precedes_poll 4 3)) 1%nat 5%nat);
    [lia|reflexivity].
Defined.

(** ** Descriptor bookkeeping *)

Lemma table_close fd pr : table (close fd pr) = delete fd (table pr).
Proof. done. Qed.

Lemma table_dup2 oldfd newfd pr o :
  table pr !! oldfd = Some o →
  table (dup2 oldfd newfd pr) = <[newfd := o]> (table pr).
Proof. intros Hold. unfold dup2. by rewrite Hold. Qed.

Lemma table_fcntl_setfl fd v pr : table (fcntl_setfl fd v pr) = table pr.
Proof. unfold fcntl_setfl. by destruct (table pr !! fd). Qed.

Section roles.
Context (pr : process) (to_c from_c : pipe_fds).
Context (Hin : is_Some (table pr !! STDIN_FILENO)).
Context (Hout : is_Some (table pr !! STDOUT_FILENO)).
Context (Hto : unused_pair to_c pr).
Context (Hfrom : unused_pair from_c (pipe to_child to_c pr)).

(** The four descriptors are distinct and none is 0 or 1. *)
Lemma four_descriptors :
  (to_c.1 ≠ to_c.2 ∧ from_c.1 ≠ from_c.2
   ∧ from_c.1 ≠ to_c.1 ∧ from_c.1 ≠ to_c.2
   ∧ from_c.2 ≠ to_c.1 ∧ from_c.2 ≠ to_c.2)
  ∧ (to_c.1 ≠ 0 ∧ to_c.2 ≠ 0 ∧ from_c.1 ≠ 0 ∧ from_c.2 ≠ 0)
  ∧ (to_c.1 ≠ 1 ∧ to_c.2 ≠ 1 ∧ from_c.1 ≠ 1 ∧ from_c.2 ≠ 1)
  ∧ (table pr !! to_c.1 = None ∧ table pr !! to_c.2 = None
     ∧ table pr !! from_c.1 = None ∧ table pr !! from_c.2 = None).
Proof.
  destruct Hto as (Ht & Ht1 & Ht2), Hfrom as (Hf & Hf1 & Hf2).
  unfold pipe in Hf1, Hf2; cbn [table at_side] in Hf1, Hf2.
  apply lookup_insert_None in Hf1 as [Hf1 ?], Hf2 as [Hf2 ?].
  apply lookup_insert_None in Hf1 as [Hf1 ?], Hf2 as [Hf2 ?].
  assert (∀ fd, table pr !! fd = None → fd ≠ 0 ∧ fd ≠ 1) as Hstd.
  { intros fd Hnone. split; intros ->.
    - unfold STDIN_FILENO in Hin. rewrite Hnone in Hin. by destruct Hin.
    - unfold STDOUT_FILENO in Hout. rewrite Hnone in Hout. by destruct Hout. }
  destruct (Hstd _ Ht1), (Hstd _ Ht2), (Hstd _ Hf1), (Hstd _ Hf2).
  split_and!; done.
Qed.

Let both := pipe from_child from_c (pipe to_child to_c pr).

Lemma table_both fd :
  table both !! fd =
    if decide (fd = from_c.2) then Some (PipeEnd from_child WRITE_SIDE)
    else if decide (fd = from_c.1) then Some (PipeEnd from_child READ_SIDE)
    else if decide (fd = to_c.2) then Some (PipeEnd to_child WRITE_SIDE)
    else if decide (fd = to_c.1) then Some (PipeEnd to_child READ_SIDE)
    else table pr !! fd.
Proof.
  unfold both, pipe; cbn [table at_side].
  repeat case_decide; simplify_map_eq; done.
Qed.

Lemma table_parent fd :
  table (InitializeParent to_c from_c both) !! fd =
    if decide (fd = to_c.1) then None
    else if decide (fd = from_c.2) then None
    else table both !! fd.
Proof.
  unfold InitializeParent. cbn zeta. rewrite table_fcntl_setfl.
  unfold close; cbn [table at_side]. rewrite !lookup_delete.
  repeat case_decide; congruence.
Qed.

Lemma table_child fd :
  table (InitializeChild to_c from_c both) !! fd =
    if decide (fd ∈ [to_c.1; to_c.2; from_c.1; from_c.2]) then None
    else if decide (fd = STDOUT_FILENO) then Some (PipeEnd from_child WRITE_SIDE)
    else if decide (fd = STDIN_FILENO) then Some (PipeEnd to_child READ_SIDE)
    else table pr !! fd.
Proof.
  destruct four_descriptors
    as ((? & ? & ? & ? & ? & ?) & (? & ? & ? & ?) & (? & ? & ? & ?) & _).
  assert (table both !! to_c.1 = Some (PipeEnd to_child READ_SIDE)) as Htr
    by (rewrite table_both; repeat case_decide; congruence).
  assert (table both !! from_c.2 = Some (PipeEnd from_child WRITE_SIDE)) as Hfw
    by (rewrite table_both; repeat case_decide; congruence).
  unfold InitializeChild. cbn zeta. cbn [at_side].
  unfold STDIN_FILENO, STDOUT_FILENO.
  rewrite !table_close.
  rewrite (table_dup2 from_c.2 1 _ (PipeEnd from_child WRITE_SIDE)).
  2: { rewrite table_close, lookup_delete_ne by done.
       rewrite (table_dup2 to_c.1 0 _ _ Htr). by rewrite lookup_insert_ne. }
  rewrite table_close, (table_dup2 to_c.1 0 _ _ Htr).
  rewrite !lookup_delete, lookup_insert, lookup_delete, lookup_insert, table_both.
  destruct (decide (fd ∈ [to_c.1; to_c.2; from_c.1; from_c.2])) as [Hfd|Hfd].
  - repeat (apply elem_of_cons in Hfd as [->|Hfd];
              [repeat case_decide; congruence|]).
    by apply elem_of_nil in Hfd.
  - apply not_elem_of_cons in Hfd as [? Hfd]. apply not_elem_of_cons in Hfd as [? Hfd].
    apply not_elem_of_cons in Hfd as [? Hfd]. apply not_elem_of_cons in Hfd as [? Hfd].
    repeat case_decide; congruence.
Qed.
End roles.





(** * Further properties of the code *)

(** ** GetLine, one call *)

Lemma unread_set_file_world fd f b e fs :
  unread fd (World b e (<[fd := f]> fs)) = pending f.
Proof. unfold unread. cbn [files]. by rewrite lookup_insert_eq. Qed.

(** X1: a call moves bytes from the descriptor to the end of the buffer, in
    order, neither dropping nor repeating any: the buffer it leaves followed
    by the bytes still pending is what it kept of the buffer followed by the
    bytes that were pending.  A call that returns false has taken every
    pending byte. *)
Theorem GetLine_moves_bytes_in_order fd buffer w :
  buffer_of (GetLine fd buffer w) ++ unread fd (world_of (GetLine fd buffer w))
    = held w buffer ++ unread fd w
  ∧ (retval_of (GetLine fd buffer w) = false →
     unread fd (world_of (GetLine fd buffer w)) = []
     ∧ buffer_of (GetLine fd buffer w) = held w buffer ++ unread fd w).
Proof.
  destruct (files w !! fd) as [f|] eqn:Hf.
  - rewrite (unread_open fd w f Hf).
    destruct (read_loop_cases (pending f) []) as [(l & rest & Hp & Hl & _)|[Hp _]].
    + rewrite (GetLine_line fd buffer w f l rest Hf Hp Hl).
      unfold buffer_of, world_of, retval_of, unread. cbn [fst snd files].
      rewrite lookup_insert_eq. cbn. split; [|done].
      rewrite Hp. by rewrite <- !app_assoc.
    + rewrite (GetLine_no_line fd buffer w f Hf Hp).
      unfold buffer_of, world_of, retval_of, unread. cbn [fst snd files].
      rewrite lookup_insert_eq. cbn. by rewrite !app_nil_r.
  - rewrite (unread_closed fd w Hf), (GetLine_bad_fd fd buffer w Hf).
    unfold buffer_of, world_of, retval_of, unread. cbn [fst snd files].
    rewrite Hf. cbn. by rewrite !app_nil_r.
Qed.

(** Polling "lo" with "hel" gathered: nothing reported, "hello" gathered. *)
Lemma GetLine_moves_bytes_witness :
  let w := World false EAGAIN {[3 := File (text "lo") WouldBlock]} in
  unread 3 (world_of (GetLine 3 (text "hel") w)) = []
  ∧ buffer_of (GetLine 3 (text "hel") w) = held w (text "hel") ++ unread 3 w.
Proof.
  apply (proj2 (GetLine_moves_bytes_in_order 3 (text "hel")
                  (World false EAGAIN {[3 := File (text "lo") WouldBlock]}))).
  reflexivity.
Defined.

(** X2: a call touches no descriptor but the one it polls. *)
Theorem GetLine_leaves_other_descriptors fd fd' buffer w :
  fd' ≠ fd →
  files (world_of (GetLine fd buffer w)) !! fd' = files w !! fd'.
Proof.
  intros Hne. destruct (files w !! fd) as [f|] eqn:Hf.
  - destruct (read_loop_cases (pending f) []) as [(l & rest & Hp & Hl & _)|[Hp _]].
    + rewrite (GetLine_line fd buffer w f l rest Hf Hp Hl).
      unfold world_of. cbn [snd files]. by rewrite lookup_insert_ne.
    + rewrite (GetLine_no_line fd buffer w f Hf Hp).
      unfold world_of. cbn [snd files]. by rewrite lookup_insert_ne.
  - by rewrite (GetLine_bad_fd fd buffer w Hf).
Qed.

Lemma GetLine_leaves_other_descriptors_witness :
  files (world_of (GetLine 3 [] two_channels)) !! 4 = files two_channels !! 4.
Proof. by apply (GetLine_leaves_other_descriptors 3 4 [] two_channels). Defined.

(** X3: a line is never reported together with an error, and reporting a
    line leaves [errno] as it was. *)
Theorem GetLine_line_comes_without_error fd buffer w :
  retval_of (GetLine fd buffer w) = true →
  error_of (GetLine fd buffer w) = false
  ∧ errno (world_of (GetLine fd buffer w)) = errno w.
Proof.
  destruct (files w !! fd) as [f|] eqn:Hf.
  - destruct (read_loop_cases (pending f) []) as [(l & rest & Hp & Hl & _)|[Hp _]].
    + by rewrite (GetLine_line fd buffer w f l rest Hf Hp Hl).
    + by rewrite (GetLine_no_line fd buffer w f Hf Hp).
  - by rewrite (GetLine_bad_fd fd buffer w Hf).
Qed.

(** A line pending on a descriptor that has since reached end-of-stream. *)
Lemma GetLine_line_comes_without_error_witness :
  let w := World true EPIPE {[3 := File (text "bye" ++ [newline]) EndOfStream]} in
  error_of (GetLine 3 [] w) = false ∧ errno (world_of (GetLine 3 [] w)) = errno w.
Proof.
  apply (GetLine_line_comes_without_error 3 []
           (World true EPIPE {[3 := File (text "bye" ++ [newline]) EndOfStream]})).
  reflexivity.
Defined.

(** X4: when [read] fails with a code other than [EAGAIN] after the pending
    bytes, none of them a newline, the call returns false with [error] set,
    [errno] holds that code, and the bytes read before the failure are in
    the buffer, after what the call kept of it. *)
Theorem GetLine_read_failure_is_an_error fd buffer w f e :
  files w !! fd = Some f →
  newline ∉ pending f →
  when_drained f = Fails e →
  e ≠ EAGAIN →
  retval_of (GetLine fd buffer w) = false
  ∧ error_of (GetLine fd buffer w) = true
  ∧ buffer_of (GetLine fd buffer w) = held w buffer ++ pending f
  ∧ errno (world_of (GetLine fd buffer w)) = e
  ∧ needs_a_reset (world_of (GetLine fd buffer w)) = false.
Proof.
  intros Hf Hp Hd He. rewrite (GetLine_no_line fd buffer w f Hf Hp), Hd.
  unfold retval_of, error_of, buffer_of, world_of. cbn.
  split_and!; try done. apply negb_true_iff, Z.eqb_neq, He.
Qed.

Lemma GetLine_read_failure_witness :
  let w := World false EAGAIN {[3 := File (text "par") (Fails EINTR)]} in
  retval_of (GetLine 3 (text "x") w) = false
  ∧ error_of (GetLine 3 (text "x") w) = true
  ∧ buffer_of (GetLine 3 (text "x") w) = held w (text "x") ++ text "par"
  ∧ errno (world_of (GetLine 3 (text "x") w)) = EINTR
  ∧ needs_a_reset (world_of (GetLine 3 (text "x") w)) = false.
Proof.
  apply (GetLine_read_failure_is_an_error 3 (text "x")
           (World false EAGAIN {[3 := File (text "par") (Fails EINTR)]})
           (File (text "par") (Fails EINTR)) EINTR);
    [reflexivity|compute_done|reflexivity|discriminate].
Defined.

(** X5: polling a descriptor that is not open is an error at once: the call
    returns false with [error] set and [errno = EBADF], and the buffer holds
    what the call kept of it (nothing, when the flag was set). *)
Theorem GetLine_on_a_closed_descriptor fd buffer w :
  files w !! fd = None →
  retval_of (GetLine fd buffer w) = false
  ∧ error_of (GetLine fd buffer w) = true
  ∧ buffer_of (GetLine fd buffer w) = held w buffer
  ∧ errno (world_of (GetLine fd buffer w)) = EBADF
  ∧ files (world_of (GetLine fd buffer w)) = files w.
Proof. intros Hf. by rewrite (GetLine_bad_fd fd buffer w Hf). Qed.

Lemma GetLine_on_a_closed_descriptor_witness :
  retval_of (GetLine 7 (text "x") fresh_start) = false
  ∧ error_of (GetLine 7 (text "x") fresh_start) = true
  ∧ buffer_of (GetLine 7 (text "x") fresh_start) = held fresh_start (text "x")
  ∧ errno (world_of (GetLine 7 (text "x") fresh_start)) = EBADF
  ∧ files (world_of (GetLine 7 (text "x") fresh_start)) = files fresh_start.
Proof. by apply (GetLine_on_a_closed_descriptor 7 (text "x") fresh_start). Defined.

(** X6: end-of-stream after pending bytes that hold no newline is reported
    as an error exactly when [errno] does not hold [EAGAIN] on entry; either
    way the call returns false and the pending bytes are in the buffer. *)
Theorem GetLine_end_of_stream_needs_errno fd buffer w f :
  files w !! fd = Some f →
  newline ∉ pending f →
  when_drained f = EndOfStream →
  (error_of (GetLine fd buffer w) = true ↔ errno w ≠ EAGAIN)
  ∧ retval_of (GetLine fd buffer w) = false
  ∧ buffer_of (GetLine fd buffer w) = held w buffer ++ pending f.
Proof.
  intros Hf Hp Hd. rewrite (GetLine_no_line fd buffer w f Hf Hp), Hd.
  unfold retval_of, error_of, buffer_of. cbn. split_and!; try done.
  rewrite negb_true_iff. apply Z.eqb_neq.
Qed.

(** At program start ([errno] 0) a closed stream is reported. *)
Lemma GetLine_end_of_stream_witness :
  let w := initial_world 0 {[3 := File [] EndOfStream]} in
  (error_of (GetLine 3 [] w) = true ↔ errno w ≠ EAGAIN)
  ∧ retval_of (GetLine 3 [] w) = false
  ∧ buffer_of (GetLine 3 [] w) = held w [] ++ [].
Proof.
  apply (GetLine_end_of_stream_needs_errno 3 []
           (initial_world 0 {[3 := File [] EndOfStream]}) (File [] EndOfStream));
    [reflexivity|compute_done|reflexivity].
Defined.

(** ** GetLine, whole sessions *)

Lemma unread_arrive fd a w f :
  files w !! fd = Some f → unread fd (arrive fd a w) = unread fd w ++ bytes a.
Proof.
  intros Hf. rewrite (unread_open fd w f Hf).
  by rewrite (unread_open fd _ _ (files_arrive fd a w f Hf)).
Qed.

(** X7: over any session on an open descriptor nothing is lost, repeated or
    reordered: the reported lines, one after the other, followed by what the
    next call would keep of the buffer and by the bytes still pending, are
    what the first call kept of the buffer, the bytes pending then and
    everything delivered since. *)
Theorem session_conserves_the_stream fd env buffer w f :
  files w !! fd = Some f →
  concat (reported (session fd env buffer w))
    ++ held (session_end fd env buffer w).2 (session_end fd env buffer w).1
    ++ unread fd (session_end fd env buffer w).2
  = held w buffer ++ unread fd w ++ delivered env.
Proof.
  revert buffer w f. induction env as [|a env IH]; intros buffer w f Hf.
  { unfold delivered. cbn. by rewrite !app_nil_r. }
  cbn [session session_end]. rewrite reported_cons. cbn [line_ready exit_buffer].
  rewrite delivered_cons.
  pose proof (files_arrive fd a w f Hf) as Hf'.
  rewrite (unread_open fd w f Hf).
  destruct (read_loop_cases (pending f ++ bytes a) [])
    as [(l & rest & Hp & Hl & _)|[Hp _]].
  - rewrite (GetLine_line fd buffer _ _ l rest Hf' Hp Hl).
    unfold retval_of, buffer_of, world_of. cbn [fst snd].
    rewrite held_arrive. cbn [concat]. rewrite <- (app_assoc _ (concat _)).
    erewrite IH by (cbn [files]; apply lookup_insert_eq).
    unfold held at 2. cbn [needs_a_reset].
    rewrite unread_set_file_world. cbn [app].
    rewrite <- !app_assoc. f_equal.
    rewrite (app_assoc (pending f)), Hp. by rewrite <- !app_assoc.
  - rewrite (GetLine_no_line fd buffer _ _ Hf' Hp).
    unfold retval_of, buffer_of, world_of. cbn [fst snd pending].
    rewrite held_arrive.
    erewrite IH by (cbn [files]; apply lookup_insert_eq).
    unfold held at 1. cbn [needs_a_reset].
    rewrite unread_set_file_world. cbn [pending app].
    by rewrite <- !app_assoc.
Qed.

(** "ab", "c\nde\nf", "" with "zz" handed in at program start. *)
Lemma session_conserves_the_stream_witness :
  let env := [Arrival (text "ab") None;
              Arrival (text "c" ++ [newline] ++ text "de" ++ [newline] ++ text "f") None;
              Arrival [] None] in
  concat (reported (session 3 env (text "zz") fresh_start))
    ++ held (session_end 3 env (text "zz") fresh_start).2
            (session_end 3 env (text "zz") fresh_start).1
    ++ unread 3 (session_end 3 env (text "zz") fresh_start).2
  = held fresh_start (text "zz") ++ unread 3 fresh_start ++ delivered env.
Proof.
  by apply (session_conserves_the_stream 3 _ (text "zz") fresh_start
              (File [] WouldBlock)).
Defined.

(** ** The duplex loop, whole runs *)

Lemma pretty_N_go_no_newline (x : N) (s : string) :
  newline ∉ list_ascii_of_string s →
  newline ∉ list_ascii_of_string (pretty_N_go x s).
Proof.
  revert s. induction (N.lt_wf_0 x) as [x _ IH]; intros s Hs.
  destruct (decide (x = 0)%N) as [->|Hx]; [by rewrite pretty_N_go_0|].
  rewrite pretty_N_go_step by lia. apply IH; [apply N.div_lt; lia|].
  cbn [list_ascii_of_string]. apply not_elem_of_cons. split; [|done].
  unfold pretty_N_char, newline. by repeat case_match.
Qed.

Lemma pretty_N_no_newline (x : N) : newline ∉ list_ascii_of_string (pretty x).
Proof.
  unfold pretty, pretty_N. case_decide; [compute_done|].
  apply pretty_N_go_no_newline, not_elem_of_nil.
Qed.

Lemma pretty_Z_no_newline (x : Z) : newline ∉ list_ascii_of_string (pretty x).
Proof.
  unfold pretty, pretty_Z. destruct x as [|p|p].
  - compute_done.
  - apply pretty_N_no_newline.
  - cbn [append list_ascii_of_string]. apply not_elem_of_cons.
    split; [done|]. apply pretty_N_no_newline.
Qed.

(** An outbound message is one line. *)
Lemma outbound_one_line c : one_line (outbound c).
Proof.
  exists (list_ascii_of_string "Line: " ++ list_ascii_of_string (pretty c)).
  split; [unfold outbound; by rewrite <- app_assoc|].
  apply not_elem_of_app. split; [compute_done|apply pretty_Z_no_newline].
Qed.

Lemma files_arrive_closed fd a w :
  files w !! fd = None → files (arrive fd a w) !! fd = None.
Proof.
  intros Hf. unfold arrive, deliver, hang_up. rewrite Hf.
  destruct (change a); by rewrite ?Hf.
Qed.

Lemma files_write r s w : files (write r s w).2 = files w.
Proof. by destruct r. Qed.

Lemma flag_write r s w : needs_a_reset (write r s w).2 = needs_a_reset w.
Proof. by destruct r. Qed.

Lemma transmitted_iteration_log to_fd from_fd c rv b err :
  transmitted (iteration_log to_fd from_fd c rv b err) = [outbound c].
Proof. by destruct rv, err. Qed.

Lemma sleeps_iteration_log to_fd from_fd c rv b err :
  sleeps (iteration_log to_fd from_fd c rv b err) = if err then [] else [250].
Proof. by destruct rv, err. Qed.

(** A property of the log that every continuing iteration preserves, and
    that a final iteration turns into a second one, holds at the end of
    every run. *)
Lemma main_loop_log_ind to_fd from_fd (P Q : list event → Prop) :
  (∀ l c rv b, P l → P (l ++ iteration_log to_fd from_fd c rv b false)) →
  (∀ l c rv b, P l → Q (l ++ iteration_log to_fd from_fd c rv b true)) →
  ∀ env m, P (log m) →
    match (main_loop to_fd from_fd env m).1 with
    | Running => P (log (main_loop to_fd from_fd env m).2)
    | Terminated => Q (log (main_loop to_fd from_fd env m).2)
    end.
Proof.
  intros Hgo Hstop env. induction env as [|t env IH]; intros m Hm; [done|].
  cbn [main_loop]. rewrite iteration_effect. cbn zeta.
  destruct (error_of _) eqn:Herr.
  - cbn [fst snd log]. by apply Hstop.
  - apply IH. cbn [log]. by apply Hgo.
Qed.

(** X8: every message handed to [write] is shown in the TX window and
    nothing else is, in the same order, whether the loop is still running
    or has stopped. *)
Theorem tx_window_shows_what_is_written to_fd from_fd env w :
  transmitted (log (main_loop to_fd from_fd env (initial_machine w)).2)
    = written (log (main_loop to_fd from_fd env (initial_machine w)).2).
Proof.
  pose proof (main_loop_log_ind to_fd from_fd
                (λ l, transmitted l = written l) (λ l, transmitted l = written l))
    as Hind.
  assert (∀ l c rv b err, transmitted l = written l →
            transmitted (l ++ iteration_log to_fd from_fd c rv b err)
            = written (l ++ iteration_log to_fd from_fd c rv b err)) as Hstep.
  { intros l c rv b err Hl. unfold transmitted at 1. rewrite omap_app.
    fold (transmitted l).
    fold (transmitted (iteration_log to_fd from_fd c rv b err)).
    by rewrite written_app, transmitted_iteration_log, written_iteration_log, Hl. }
  specialize (Hind (λ l c rv b, Hstep l c rv b false)
                   (λ l c rv b, Hstep l c rv b true) env (initial_machine w) eq_refl).
  by destruct (main_loop _ _ _ _).1.
Qed.

(** X9: the RX window gains at most one line per iteration, however much
    the child has written: lines shown never outnumber messages sent. *)
Theorem rx_window_gains_one_line_at_most to_fd from_fd env w :
  (length (received (log (main_loop to_fd from_fd env (initial_machine w)).2))
   ≤ length (written (log (main_loop to_fd from_fd env (initial_machine w)).2)))%nat.
Proof.
  pose proof (main_loop_log_ind to_fd from_fd
                (λ l, (length (received l) ≤ length (written l))%nat)
                (λ l, (length (received l) ≤ length (written l))%nat))
    as Hind.
  assert (∀ l c rv b err, (length (received l) ≤ length (written l))%nat →
            (length (received (l ++ iteration_log to_fd from_fd c rv b err))
             ≤ length (written (l ++ iteration_log to_fd from_fd c rv b err)))%nat)
    as Hstep.
  { intros l c rv b err Hl. unfold received at 1. rewrite omap_app.
    fold (received l). fold (received (iteration_log to_fd from_fd c rv b err)).
    rewrite written_app, received_iteration_log, written_iteration_log.
    rewrite !length_app. destruct rv; cbn [length]; lia. }
  specialize (Hind (λ l c rv b, Hstep l c rv b false)
                   (λ l c rv b, Hstep l c rv b true) env (initial_machine w)).
  cbn [initial_machine log] in Hind. specialize (Hind (le_n _)).
  by destruct (main_loop _ _ _ _).1.
Qed.

(** X10: the loop waits 250 milliseconds after every iteration except the
    one that breaks: a running loop has slept once per message written, a
    stopped one once less. *)
Theorem loop_sleeps_between_iterations to_fd from_fd env w :
  let res := main_loop to_fd from_fd env (initial_machine w) in
  sleeps (log res.2)
    = replicate (length (written (log res.2))
                 - match res.1 with Running => 0 | Terminated => 1 end) 250.
Proof.
  intros res.
  pose proof (main_loop_log_ind to_fd from_fd
                (λ l, sleeps l = replicate (length (written l)) 250)
                (λ l, sleeps l = replicate (length (written l) - 1) 250))
    as Hind.
  assert (∀ l c rv b, sleeps l = replicate (length (written l)) 250 →
            sleeps (l ++ iteration_log to_fd from_fd c rv b false)
            = replicate (length (written (l ++ iteration_log to_fd from_fd c rv b false)))
                250) as Hgo.
  { intros l c rv b Hl. unfold sleeps at 1. rewrite omap_app.
    fold (sleeps l). fold (sleeps (iteration_log to_fd from_fd c rv b false)).
    rewrite written_app, sleeps_iteration_log, written_iteration_log, Hl.
    rewrite length_app. cbn [length]. by rewrite Nat.add_1_r, replicate_S_end. }
  assert (∀ l c rv b, sleeps l = replicate (length (written l)) 250 →
            sleeps (l ++ iteration_log to_fd from_fd c rv b true)
            = replicate
                (length (written (l ++ iteration_log to_fd from_fd c rv b true)) - 1)
                250) as Hstop.
  { intros l c rv b Hl. unfold sleeps at 1. rewrite omap_app.
    fold (sleeps l). fold (sleeps (iteration_log to_fd from_fd c rv b true)).
    rewrite written_app, sleeps_iteration_log, written_iteration_log, Hl.
    rewrite length_app, app_nil_r. cbn [length]. f_equal. lia. }
  specialize (Hind Hgo Hstop env (initial_machine w) eq_refl). fold res in Hind.
  destruct res.1; [|done]. by rewrite Nat.sub_0_r.
Qed.

(** What one call adds to the reported lines, plus what is left in the
    buffer and on the descriptor, is what was there before the call. *)
Lemma GetLine_stream fd buffer w f :
  files w !! fd = Some f →
  let r := GetLine fd buffer w in
  concat (if retval_of r then [buffer_of r] else [])
    ++ held (world_of r) (buffer_of r) ++ unread fd (world_of r)
  = held w buffer ++ unread fd w
  ∧ is_Some (files (world_of r) !! fd).
Proof.
  intros Hf r. subst r. rewrite (unread_open fd w f Hf).
  destruct (read_loop_cases (pending f) []) as [(l & rest & Hp & Hl & _)|[Hp _]].
  - rewrite (GetLine_line fd buffer w f l rest Hf Hp Hl).
    unfold retval_of, buffer_of, world_of. cbn [fst snd].
    rewrite unread_set_file_world. unfold held at 2. cbn [needs_a_reset files].
    rewrite lookup_insert_eq. split; [|by eexists].
    cbn [concat pending app]. rewrite app_nil_r, Hp. by rewrite <- !app_assoc.
  - rewrite (GetLine_no_line fd buffer w f Hf Hp).
    unfold retval_of, buffer_of, world_of. cbn [fst snd].
    rewrite unread_set_file_world. unfold held at 1. cbn [needs_a_reset files].
    rewrite lookup_insert_eq. split; [|by eexists].
    cbn [concat pending app]. by rewrite app_nil_r.
Qed.

Lemma child_said_cons t env :
  child_said (t :: env) = bytes (child_output t) ++ child_said env.
Proof. done. Qed.

Lemma child_said_app env1 env2 :
  child_said (env1 ++ env2) = child_said env1 ++ child_said env2.
Proof. unfold child_said. by rewrite fmap_app, delivered_app. Qed.

Lemma main_loop_stream to_fd from_fd env m f :
  files (os m) !! from_fd = Some f →
  let res := main_loop to_fd from_fd env m in
  ∃ done rest,
    env = done ++ rest
    ∧ (res.1 = Running → rest = [])
    ∧ concat (received (log res.2))
        ++ held (os res.2) (buffer (vars res.2)) ++ unread from_fd (os res.2)
      = concat (received (log m))
          ++ held (os m) (buffer (vars m)) ++ unread from_fd (os m)
          ++ child_said done.
Proof.
  revert m f. induction env as [|t env IH]; intros m f Hf res.
  { exists [], []. subst res. cbn [main_loop fst snd].
    split_and!; [done|done|]. unfold child_said, delivered. cbn.
    by rewrite !app_nil_r. }
  subst res. cbn [main_loop]. rewrite iteration_effect. cbn zeta.
  set (w1 := (write _ _ (os m)).2).
  assert (files w1 !! from_fd = Some f) as Hf1
    by (unfold w1; by rewrite files_write).
  assert (held w1 (buffer (vars m)) = held (os m) (buffer (vars m))) as Hh1
    by (unfold held, w1; by rewrite flag_write).
  assert (unread from_fd w1 = unread from_fd (os m)) as Hu1
    by (by rewrite (unread_open _ _ _ Hf1), (unread_open _ _ _ Hf)).
  pose proof (files_arrive from_fd (child_output t) w1 f Hf1) as Hf2.
  destruct (GetLine_stream from_fd (buffer (vars m))
              (arrive from_fd (child_output t) w1) _ Hf2) as [Hstream [f' Hf']].
  cbn zeta in Hstream.
  rewrite held_arrive, (unread_arrive _ _ _ _ Hf1), Hh1, Hu1 in Hstream.
  set (r := GetLine from_fd (buffer (vars m))
              (arrive from_fd (child_output t) w1)) in *.
  assert (concat (received (log m ++ iteration_log to_fd from_fd
                     (message_counter (vars m)) (retval_of r) (buffer_of r) (error_of r)))
          = concat (received (log m))
              ++ concat (if retval_of r then [buffer_of r] else [])) as Hrec.
  { unfold received at 1. rewrite omap_app. fold (received (log m)).
    fold (received (iteration_log to_fd from_fd (message_counter (vars m))
            (retval_of r) (buffer_of r) (error_of r))).
    by rewrite received_iteration_log, concat_app. }
  destruct (error_of r) eqn:Herr.
  - exists [t], env. cbn [fst snd os vars buffer log].
    split_and!; [done|done|].
    rewrite Hrec, child_said_cons. unfold child_said at 1, delivered. cbn [fmap list_fmap concat].
    rewrite app_nil_r, <- !app_assoc. f_equal. exact Hstream.
  - match goal with |- context [main_loop _ _ env ?m1] =>
      destruct (IH m1 f' Hf') as (done & rest & Henv & Hrun & Heq) end.
    cbn [os vars buffer log] in Heq.
    exists (t :: done), rest. split_and!; [by rewrite Henv|done|].
    rewrite Heq, Hrec, child_said_cons, <- !app_assoc. f_equal.
    rewrite (app_assoc (concat _) (held _ _)), (app_assoc _ (unread _ _)).
    rewrite <- (app_assoc (concat _) (held _ _)), Hstream.
    by rewrite <- !app_assoc.
Qed.

(** X11: the RX window shows the child's output in the order it was
    written, cut at newlines and with nothing left out: on an open
    from-child descriptor the lines shown, one after the other, followed by
    the partial line in the buffer and the bytes not read yet, are the bytes
    that were pending at the start followed by what the child wrote during
    the iterations run; so the lines shown are a prefix of the child's
    output. *)
Theorem rx_window_follows_child_output to_fd from_fd env w f :
  files w !! from_fd = Some f →
  let res := main_loop to_fd from_fd env (initial_machine w) in
  (∃ done rest,
     env = done ++ rest
     ∧ (res.1 = Running → rest = [])
     ∧ concat (received (log res.2))
         ++ held (os res.2) (buffer (vars res.2)) ++ unread from_fd (os res.2)
       = pending f ++ child_said done)
  ∧ concat (received (log res.2)) `prefix_of` pending f ++ child_said env.
Proof.
  intros Hf res.
  destruct (main_loop_stream to_fd from_fd env (initial_machine w) f Hf)
    as (done & rest & Henv & Hrun & Heq).
  fold res in Hrun, Heq.
  assert (concat (received (log res.2))
            ++ held (os res.2) (buffer (vars res.2)) ++ unread from_fd (os res.2)
          = pending f ++ child_said done) as Heq'.
  { rewrite Heq. cbn [initial_machine log os vars buffer initial_locals].
    rewrite (unread_open _ _ _ Hf). unfold held. by destruct (needs_a_reset w). }
  split; [by exists done, rest|].
  rewrite Henv, child_said_app, app_assoc, <- Heq', <- !app_assoc.
  by apply prefix_app_r.
Qed.

(** The child writes "he", then "y\nyo". *)
Lemma rx_window_follows_child_output_witness :
  let env := [Turn WroteAll (Arrival (text "he") None);
              Turn WroteAll (Arrival (text "y" ++ [newline] ++ text "yo") None)] in
  concat (received (log (main_loop 4 3 env (initial_machine fresh_start)).2))
    `prefix_of` [] ++ child_said env.
Proof.
  apply (proj2 (rx_window_follows_child_output 4 3 _ fresh_start (File [] WouldBlock)
                  eq_refl)).
Defined.

Lemma echo_turns_run to_fd from_fd n m f :
  files (os m) !! from_fd = Some f →
  pending f = [] →
  held (os m) (buffer (vars m)) = [] →
  let res := main_loop to_fd from_fd (echo_turns (message_counter (vars m)) n) m in
  res.1 = Running
  ∧ unread from_fd (os res.2) = []
  ∧ ∃ sent, length sent = n
            ∧ written (log res.2) = written (log m) ++ sent
            ∧ received (log res.2) = received (log m) ++ sent.
Proof.
  revert m f. induction n as [|n IH]; intros m f Hf Hp Hh res.
  { subst res. cbn [echo_turns main_loop fst snd].
    split_and!; [done|by rewrite (unread_open _ _ _ Hf)|].
    exists []. by rewrite !app_nil_r. }
  subst res. cbn [echo_turns main_loop]. rewrite iteration_effect. cbn zeta.
  cbn [echo_turn write_outcome child_output write snd].
  set (c := message_counter (vars m)).
  pose proof (files_arrive from_fd (Arrival (outbound c) None) (os m) f Hf) as Hf'.
  rewrite Hp in Hf'. cbn [bytes change default app] in Hf'.
  destruct (outbound_one_line c) as (l & Hl & Hnl).
  rewrite (GetLine_line from_fd (buffer (vars m)) _ _ l [] Hf')
    by (by cbn [pending]).
  rewrite held_arrive, Hh, app_nil_l, <- Hl.
  unfold error_of, retval_of, buffer_of, world_of. cbn [fst snd].
  match goal with |- context [main_loop _ _ _ ?m1] =>
    destruct (IH m1 (File [] (when_drained f)))
      as (Hrun & Hun & sent & Hlen & Hw & Hr) end.
  { cbn [os files]. by rewrite lookup_insert_eq. }
  { done. }
  { done. }
  cbn [vars message_counter log] in Hrun, Hun, Hw, Hr. fold c in Hrun, Hun, Hw, Hr.
  split_and!; [done|done|].
  exists (outbound c :: sent). split_and!.
  - cbn [length]. by rewrite Hlen.
  - rewrite Hw, written_app, written_iteration_log. by rewrite <- app_assoc.
  - rewrite Hr. unfold received at 1. rewrite omap_app. fold (received (log m)).
    fold (received (iteration_log to_fd from_fd c true (outbound c) false)).
    rewrite received_iteration_log. by rewrite <- app_assoc.
Qed.

(** X12: with a child that, like [cat], writes each message back before the
    poll of the same iteration, the loop keeps running and the RX window
    shows, line for line, exactly what was written to the child; nothing is
    left unread. *)
Theorem echo_is_shown_in_the_same_iteration to_fd from_fd n w f :
  files w !! from_fd = Some f →
  pending f = [] →
  let res := main_loop to_fd from_fd (echo_turns 0 n) (initial_machine w) in
  res.1 = Running
  ∧ received (log res.2) = written (log res.2)
  ∧ length (written (log res.2)) = n
  ∧ unread from_fd (os res.2) = [].
Proof.
  intros Hf Hp res.
  destruct (echo_turns_run to_fd from_fd n (initial_machine w) f Hf Hp)
    as (Hrun & Hun & sent & Hlen & Hw & Hr).
  { cbn [initial_machine os vars buffer initial_locals]. unfold held.
    by destruct (needs_a_reset w). }
  change (message_counter (vars (initial_machine w))) with 0 in Hrun, Hun, Hw, Hr.
  fold res in Hrun, Hun, Hw, Hr.
  change (written (log (initial_machine w))) with (@nil (list ascii)) in Hw.
  change (received (log (initial_machine w))) with (@nil (list ascii)) in Hr.
  rewrite app_nil_l in Hw, Hr.
  split_and!; [done|by rewrite Hw, Hr|by rewrite Hw|done].
Qed.

Lemma echo_is_shown_witness :
  let res := main_loop 4 3 (echo_turns 0 3) (initial_machine fresh_start) in
  res.1 = Running
  ∧ received (log res.2) = written (log res.2)
  ∧ length (written (log res.2)) = 3%nat
  ∧ unread 3 (os res.2) = [].
Proof.
  apply (echo_is_shown_in_the_same_iteration 4 3 3 fresh_start (File [] WouldBlock));
    reflexivity.
Defined.

(** X13: when the poll of an iteration ends in a read failure other than
    [EAGAIN], the loop stops in that iteration: the message has been written
    and shown in the TX window and the counter has advanced, but nothing is
    shown in the RX window and neither [Refresh] nor the wait follows; the
    bytes read before the failure are left in [buffer]. *)
Theorem read_failure_stops_the_loop to_fd from_fd t m f e :
  files (os m) !! from_fd = Some f →
  newline ∉ pending f ++ bytes (child_output t) →
  default (when_drained f) (change (child_output t)) = Fails e →
  e ≠ EAGAIN →
  let i := iteration to_fd from_fd t m in
  let s := outbound (message_counter (vars m)) in
  i.1 = Terminated
  ∧ error (vars i.2) = true
  ∧ message_counter (vars i.2) = uint64_incr (message_counter (vars m))
  ∧ buffer (vars i.2)
      = held (os m) (buffer (vars m)) ++ pending f ++ bytes (child_output t)
  ∧ log i.2 = log m ++ [EWrite to_fd s; EAddLine tx_window s; EGetLine from_fd].
Proof.
  intros Hf Hnl Hd He i s. subst i s. rewrite iteration_effect. cbn zeta.
  set (w1 := (write _ _ (os m)).2).
  assert (files w1 !! from_fd = Some f) as Hf1 by (unfold w1; by rewrite files_write).
  assert (held w1 (buffer (vars m)) = held (os m) (buffer (vars m))) as Hh1
    by (unfold held, w1; by rewrite flag_write).
  pose proof (files_arrive from_fd (child_output t) w1 f Hf1) as Hf2.
  rewrite (GetLine_no_line from_fd (buffer (vars m)) _ _ Hf2) by done.
  cbn [pending when_drained]. rewrite Hd, held_arrive, Hh1.
  assert (negb (e =? EAGAIN) = true) as -> by (by apply negb_true_iff, Z.eqb_neq).
  unfold error_of, retval_of, buffer_of, world_of. cbn [fst snd vars log error
    message_counter buffer iteration_log app].
  by split_and!.
Qed.

Lemma read_failure_stops_the_loop_witness :
  let t := Turn WroteAll (Arrival (text "par") (Some (Fails EINTR))) in
  let i := iteration 4 3 t (initial_machine fresh_start) in
  i.1 = Terminated
  ∧ error (vars i.2) = true
  ∧ message_counter (vars i.2) = uint64_incr 0
  ∧ buffer (vars i.2) = held fresh_start [] ++ [] ++ text "par"
  ∧ log i.2 = [] ++ [EWrite 4 (outbound 0); EAddLine tx_window (outbound 0); EGetLine 3].
Proof.
  apply (read_failure_stops_the_loop 4 3
           (Turn WroteAll (Arrival (text "par") (Some (Fails EINTR))))
           (initial_machine fresh_start) (File [] WouldBlock) EINTR);
    [reflexivity|compute_done|reflexivity|discriminate].
Defined.

(** X14: at end-of-stream with no line pending, the loop stops in an
    iteration exactly when [errno], as the write of that iteration left it,
    is not [EAGAIN]: a write that fails with another code (such as [EPIPE],
    the child being gone) makes the closed stream stop the loop, a write
    that succeeds leaves the decision to whatever [errno] held before. *)
Theorem end_of_stream_stops_the_loop_by_errno to_fd from_fd r a m f :
  files (os m) !! from_fd = Some f →
  newline ∉ pending f ++ bytes a →
  default (when_drained f) (change a) = EndOfStream →
  (iteration to_fd from_fd (Turn r a) m).1 = Terminated
  ↔ match r with WriteFailed e => e | _ => errno (os m) end ≠ EAGAIN.
Proof.
  intros Hf Hnl Hd. rewrite iteration_effect. cbn zeta.
  cbn [write_outcome child_output].
  set (w1 := (write _ _ (os m)).2).
  assert (files w1 !! from_fd = Some f) as Hf1 by (unfold w1; by rewrite files_write).
  assert (errno w1 = match r with WriteFailed e => e | _ => errno (os m) end) as He1
    by (unfold w1; by destruct r).
  pose proof (files_arrive from_fd a w1 f Hf1) as Hf2.
  rewrite (GetLine_no_line from_fd (buffer (vars m)) _ _ Hf2) by done.
  cbn [pending when_drained]. rewrite Hd, errno_arrive, He1.
  unfold error_of. cbn [fst snd].
  destruct (Z.eqb_spec (match r with WriteFailed e => e | _ => errno (os m) end) EAGAIN)
    as [Heq|Hne]; cbn [negb fst]; split; try done.
Qed.

(** After a quiet poll a write failing with [EPIPE] lets the loop stop. *)
Lemma end_of_stream_stops_the_loop_witness :
  let m := (iteration 4 3 quiet_turn (initial_machine fresh_start)).2 in
  (iteration 4 3 (Turn (WriteFailed EPIPE) (Arrival [] (Some EndOfStream))) m).1
    = Terminated
  ↔ EPIPE ≠ EAGAIN.
Proof.
  apply (end_of_stream_stops_the_loop_by_errno 4 3 (WriteFailed EPIPE)
           (Arrival [] (Some EndOfStream))
           (iteration 4 3 quiet_turn (initial_machine fresh_start)).2
           (File [] WouldBlock));
    [reflexivity|compute_done|reflexivity].
Defined.

(** ** Descriptors and status flags *)

(** X15: when [from_child[READ_SIDE]] is open and is neither of the two
    descriptors the parent closes, [InitializeParent] turns [O_NONBLOCK] on
    in the status flags of the file it refers to, changes no other bit of
    them, and leaves the flags of every other open file alone. *)
Theorem InitializeParent_sets_O_NONBLOCK to_c from_c pr o :
  table pr !! at_side from_c READ_SIDE = Some o →
  at_side from_c READ_SIDE ≠ at_side to_c READ_SIDE →
  at_side from_c READ_SIDE ≠ at_side from_c WRITE_SIDE →
  let p := InitializeParent to_c from_c pr in
  status_flags p o = Z.lor (status_flags pr o) O_NONBLOCK
  ∧ Z.testbit (status_flags p o) 11 = true
  ∧ (∀ k, 0 ≤ k → k ≠ 11 →
          Z.testbit (status_flags p o) k = Z.testbit (status_flags pr o) k)
  ∧ (∀ o', o' ≠ o → status_flags p o' = status_flags pr o').
Proof.
  intros Ho H1 H2 p.
  assert (table (close (at_side from_c WRITE_SIDE) (close (at_side to_c READ_SIDE) pr))
            !! at_side from_c READ_SIDE = Some o) as Ho'.
  { rewrite !table_close. by rewrite !lookup_delete_ne. }
  assert (∀ o', status_flags p o'
                = if decide (o' = o) then Z.lor (status_flags pr o) O_NONBLOCK
                  else status_flags pr o') as Hfl.
  { intros o'. unfold p, InitializeParent, fcntl_setfl, fcntl_getfl.
    rewrite Ho'. cbn [status_flags close]. done. }
  assert (∀ k, 0 ≤ k → Z.testbit O_NONBLOCK k = bool_decide (k = 11)) as Hbit.
  { intros k Hk. change O_NONBLOCK with (2 ^ 11). rewrite Z.pow2_bits_eqb by lia.
    destruct (Z.eqb_spec 11 k) as [<-|Hne]; [done|].
    by rewrite bool_decide_eq_false_2. }
  split_and!.
  - by rewrite Hfl, decide_True.
  - rewrite Hfl, decide_True by done. rewrite Z.lor_spec, Hbit by lia.
    by rewrite orb_true_r.
  - intros k Hk Hne. rewrite Hfl, decide_True by done.
    rewrite Z.lor_spec, Hbit by done. rewrite bool_decide_eq_false_2 by done.
    by rewrite orb_false_r.
  - intros o' Hne. by rewrite Hfl, decide_False.
Qed.

(** The pipes (3, 4) and (5, 6) in a process started by the shell. *)
Lemma InitializeParent_sets_O_NONBLOCK_witness :
  let pr := pipe from_child (5, 6) (pipe to_child (3, 4) standard_process) in
  let p := InitializeParent (3, 4) (5, 6) pr in
  let o := PipeEnd from_child READ_SIDE in
  status_flags p o = Z.lor (status_flags pr o) O_NONBLOCK
  ∧ Z.testbit (status_flags p o) 11 = true
  ∧ (∀ k, 0 ≤ k → k ≠ 11 →
          Z.testbit (status_flags p o) k = Z.testbit (status_flags pr o) k)
  ∧ (∀ o', o' ≠ o → status_flags p o' = status_flags pr o').
Proof.
  apply (InitializeParent_sets_O_NONBLOCK (3, 4) (5, 6)
           (pipe from_child (5, 6) (pipe to_child (3, 4) standard_process))
           (PipeEnd from_child READ_SIDE));
    [reflexivity|discriminate|discriminate].
Defined.

(** X16: the role set-up touches no descriptor besides the pipes' and, in
    the child, standard input and output: every other descriptor (standard
    error, say) refers in both processes to what it referred to before the
    pipes were made, and the parent keeps its standard input and output. *)
Theorem role_setup_keeps_other_descriptors pr to_c from_c fd :
  is_Some (table pr !! STDIN_FILENO) →
  is_Some (table pr !! STDOUT_FILENO) →
  unused_pair to_c pr →
  unused_pair from_c (pipe to_child to_c pr) →
  fd ∉ [to_c.1; to_c.2; from_c.1; from_c.2] →
  table (establish_roles to_c from_c pr).1 !! fd = table pr !! fd
  ∧ (fd ≠ STDIN_FILENO → fd ≠ STDOUT_FILENO →
     table (establish_roles to_c from_c pr).2 !! fd = table pr !! fd).
Proof.
  intros Hin Hout Hto Hfrom Hfd. unfold establish_roles. cbn [fst snd].
  rewrite (table_parent pr to_c from_c), (table_child pr to_c from_c) by done.
  rewrite (table_both pr to_c from_c), (decide_False _ _ Hfd).
  apply not_elem_of_cons in Hfd as [? Hfd]. apply not_elem_of_cons in Hfd as [? Hfd].
  apply not_elem_of_cons in Hfd as [? Hfd]. apply not_elem_of_cons in Hfd as [? Hfd].
  split.
  - by rewrite !decide_False.
  - intros Hn0 Hn1. by rewrite !decide_False.
Qed.

(** Standard error in a process that got the pipes (3, 4) and (5, 6). *)
Lemma role_setup_keeps_other_descriptors_witness :
  table (establish_roles (3, 4) (5, 6) standard_process).1 !! 2
    = table standard_process !! 2
  ∧ (2 ≠ STDIN_FILENO → 2 ≠ STDOUT_FILENO →
     table (establish_roles (3, 4) (5, 6) standard_process).2 !! 2
       = table standard_process !! 2).
Proof.
  apply (role_setup_keeps_other_descriptors standard_process (3, 4) (5, 6) 2).
  - by eexists.
  - by eexists.
  - split_and!; [done|reflexivity|reflexivity].
  - split_and!; [done|reflexivity|reflexivity].
  - compute_done.
Defined.

(** X17: [InitializeChild] does not treat a pipe end that already is the
    standard descriptor specially.  If [to_child[READ_SIDE]] is descriptor 0
    (a process started with standard input closed), the [close] that follows
    the [dup2] leaves the child without standard input; likewise, if
    [from_child[WRITE_SIDE]] is descriptor 1, without standard output. *)
Theorem InitializeChild_closes_a_pipe_end_that_is_standard to_c from_c pr :
  (at_side to_c READ_SIDE = STDIN_FILENO →
   table (InitializeChild to_c from_c pr) !! STDIN_FILENO = None)
  ∧ (at_side from_c WRITE_SIDE = STDOUT_FILENO →
     table (InitializeChild to_c from_c pr) !! STDOUT_FILENO = None).
Proof.
  unfold InitializeChild. cbn zeta. split; intros Heq.
  - rewrite !table_close, Heq.
    rewrite lookup_delete; case_decide; [done|].
    rewrite lookup_delete; case_decide; [done|].
    rewrite lookup_delete; case_decide; [done|].
    unfold dup2 at 1. destruct (_ !! at_side from_c WRITE_SIDE).
    + cbn [table]. rewrite lookup_insert_ne by done.
      by rewrite table_close, lookup_delete_eq.
    + by rewrite table_close, lookup_delete_eq.
  - rewrite !table_close, Heq.
    rewrite lookup_delete; case_decide; [done|].
    rewrite lookup_delete; case_decide; [done|].
    by rewrite lookup_delete_eq.
Qed.

(** A process started with descriptor 0 closed: [pipe] hands out (0, 3). *)
Lemma InitializeChild_closes_standard_witness :
  let pr := pipe from_child (4, 5)
              (pipe to_child (0, 3) (Process {[1 := Other 0; 2 := Other 0]} (λ _, 0))) in
  table (InitializeChild (0, 3) (4, 5) pr) !! STDIN_FILENO = None.
Proof.
  apply (proj1 (InitializeChild_closes_a_pipe_end_that_is_standard (0, 3) (4, 5)
                  (pipe from_child (4, 5)
                     (pipe to_child (0, 3)
                        (Process {[1 := Other 0; 2 := Other 0]} (λ _, 0)))))).
  reflexivity.
Defined.

(** ** main from start to finish *)

(** Membership in a list of calls that is written out. *)
Local Ltac member_cases :=
  unfold not; rewrite ?elem_of_app, ?elem_of_cons, ?elem_of_nil;
  solve [intuition (discriminate || eauto)].

Lemma main_loop_error to_fd from_fd env m :
  error (vars m) = false →
  (main_loop to_fd from_fd env m).1 = Terminated
  ↔ error (vars (main_loop to_fd from_fd env m).2) = true.
Proof.
  revert m. induction env as [|t env IH]; intros m Hm.
  { cbn [main_loop fst snd]. by rewrite Hm. }
  cbn [main_loop]. rewrite iteration_effect. cbn zeta.
  destruct (error_of _) eqn:Herr; [done|]. by apply IH.
Qed.

(** X18: [endwin] is called only when the loop has been left by [break],
    that is with [error] set.  On every path that ends in the [catch] block
    (curses or a pipe failing to start, [execl] failing in the child) a
    diagnostic is written, [endwin] is not called, the loop has not run and
    [main] returns; and whenever [main] returns, it returns 0. *)
Theorem main_calls_endwin_only_after_break e pr w env :
  let r := main e pr w env in
  (CEndwin ∈ calls r ↔ ∃ m, looped r = Some m ∧ error (vars m) = true)
  ∧ (∀ s, CCerr s ∈ calls r →
          (CEndwin ∉ calls r) ∧ looped r = None ∧ ending_of r = Returns 0)
  ∧ (∀ code, ending_of r = Returns code → code = 0).
Proof.
  intros r. subst r. unfold main, caught.
  destruct (initscr_ok e); cbn [negb].
  2: { cbn [calls looped ending_of]. split_and!.
       - split; [member_cases|]. by intros (m & ? & _).
       - intros s _. split_and!; [member_cases|done|done].
       - intros code [= <-]. done. }
  destruct (to_child_pipe e) as [to_c|].
  2: { cbn [calls looped ending_of]. split_and!.
       - split; [member_cases|]. by intros (m & ? & _).
       - intros s _. split_and!; [member_cases|done|done].
       - intros code [= <-]. done. }
  destruct (from_child_pipe e) as [from_c|].
  2: { cbn [calls looped ending_of]. split_and!.
       - split; [member_cases|]. by intros (m & ? & _).
       - intros s _. split_and!; [member_cases|done|done].
       - intros code [= <-]. done. }
  destruct (fork_pid e =? 0).
  { destruct (execl_ok e); cbn [calls looped ending_of]; split_and!.
    - split; [member_cases|]. by intros (m & ? & _).
    - intros s. member_cases.
    - intros code [=].
    - split; [member_cases|]. by intros (m & ? & _).
    - intros s _. split_and!; [member_cases|done|done].
    - intros code [= <-]. done. }
  pose proof (main_loop_error (at_side to_c WRITE_SIDE) (at_side from_c READ_SIDE)
                env (initial_machine w) eq_refl) as Herr.
  destruct (main_loop _ _ env (initial_machine w)) as [[|] m];
    cbn [fst snd] in Herr; cbn [calls looped ending_of]; split_and!.
  - split; [member_cases|]. intros (m' & [= <-] & Hm').
    apply Herr in Hm'. discriminate.
  - intros s. member_cases.
  - intros code [=].
  - split; [|member_cases]. intros _. exists m. split; [done|]. by apply Herr.
  - intros s. member_cases.
  - intros code [= <-]. done.
Qed.

(** The second [pipe] call fails. *)
Lemma main_calls_endwin_only_after_break_witness :
  let r := main (Startup true (Some (3, 4)) None 0 true) standard_process fresh_start [] in
  (CEndwin ∉ calls r) ∧ looped r = None ∧ ending_of r = Returns 0.
Proof.
  apply (proj1 (proj2 (main_calls_endwin_only_after_break
                         (Startup true (Some (3, 4)) None 0 true)
                         standard_process fresh_start []))
           "Pipe from child failed to allocate.").
  cbn. rewrite !elem_of_cons. tauto.
Defined.

(** X19: the value of [fork] is tested only against 0, so a failed [fork]
    (a negative value) is not noticed: [main] goes on exactly as the parent
    of a successful [fork] would, through [InitializeParent] into the loop,
    writing the same messages to a pipe that no child reads. *)
Theorem main_does_not_notice_a_failed_fork e pr w env pid :
  fork_pid e < 0 →
  0 < pid →
  main e pr w env
    = main (Startup (initscr_ok e) (to_child_pipe e) (from_child_pipe e) pid
              (execl_ok e)) pr w env.
Proof.
  intros Hneg Hpos. unfold main. cbn [initscr_ok to_child_pipe from_child_pipe
    fork_pid execl_ok].
  destruct (Z.eqb_spec (fork_pid e) 0) as [?|_]; [lia|].
  destruct (Z.eqb_spec pid 0) as [?|_]; [lia|]. done.
Qed.

Lemma main_does_not_notice_a_failed_fork_witness :
  main (Startup true (Some (3, 4)) (Some (5, 6)) (-1) true) standard_process
       fresh_start [quiet_turn]
  = main (Startup true (Some (3, 4)) (Some (5, 6)) 1234 true) standard_process
         fresh_start [quiet_turn].
Proof.
  apply (main_does_not_notice_a_failed_fork
           (Startup true (Some (3, 4)) (Some (5, 6)) (-1) true)
           standard_process fresh_start [quiet_turn] 1234); reflexivity.
Defined.

(** X20: in the child image ([fork] returned 0) the duplex loop never runs
    and [endwin] is never called: either [execl] replaces the image, or the
    exception it throws is caught in [main], which writes the diagnostic
    and returns 0 like any other failure at start-up. *)
Theorem child_image_never_runs_the_loop e pr w env :
  fork_pid e = 0 →
  let r := main e pr w env in
  looped r = None
  ∧ (CEndwin ∉ calls r)
  ∧ (ending_of r = BecomesCat
     ∨ (ending_of r = Returns 0 ∧ ∃ s, last (calls r) = Some (CCerr s))).
Proof.
  intros Hpid r. subst r. unfold main, caught. rewrite Hpid. cbn [Z.eqb].
  destruct (initscr_ok e), (to_child_pipe e), (from_child_pipe e), (execl_ok e);
    cbn [negb calls looped ending_of];
    (split_and!; [done|member_cases|]);
    first [by left | right; split; [done|]; eexists; by rewrite last_snoc].
Qed.

Lemma child_image_never_runs_the_loop_witness :
  let r := main (Startup true (Some (3, 4)) (Some (5, 6)) 0 false) standard_process
             fresh_start [quiet_turn] in
  looped r = None
  ∧ (CEndwin ∉ calls r)
  ∧ (ending_of r = BecomesCat
     ∨ (ending_of r = Returns 0 ∧ ∃ s, last (calls r) = Some (CCerr s))).
Proof.
  by apply (child_image_never_runs_the_loop
              (Startup true (Some (3, 4)) (Some (5, 6)) 0 false)
              standard_process fresh_start [quiet_turn]).
Defined.

(** ** Messages and backlogs *)

(** X21: every outbound message is a single line: "Line: ", then the digits
    of the counter, none of them a newline, then one final newline. *)
Theorem outbound_is_one_line c :
  one_line (outbound c)
  ∧ take 6 (outbound c) = text "Line: "
  ∧ drop 6 (outbound c) = text (pretty c) ++ [newline]
  ∧ last (outbound c) = Some newline.
Proof.
  split_and!; [apply outbound_one_line|done|done|].
  unfold outbound. by rewrite app_assoc, last_snoc.
Qed.

(** The bytes of a list of lines, each followed by its newline. *)
Lemma backlog_cons (l : list ascii) (ls : list (list ascii)) :
  concat ((λ l, l ++ [newline]) <$> (l :: ls))
    = l ++ newline :: concat ((λ l, l ++ [newline]) <$> ls).
Proof. cbn [fmap list_fmap concat]. by rewrite <- app_assoc. Qed.

Lemma session_backlog fd ls tail buffer w d :
  Forall (λ l, newline ∉ l) ls →
  files w !! fd = Some (File (concat ((λ l, l ++ [newline]) <$> ls) ++ tail) d) →
  held w buffer = [] →
  reported (session fd (replicate (length ls) (Arrival [] None)) buffer w)
    = (λ l, l ++ [newline]) <$> ls.
Proof.
  intros Hls. revert buffer w.
  induction Hls as [|l ls Hl _ IH]; intros buffer w Hf Hh; [done|].
  cbn [length replicate session]. rewrite reported_cons.
  cbn [line_ready exit_buffer].
  pose proof (files_arrive fd (Arrival [] None) w _ Hf) as Hf'.
  cbn [pending bytes change default when_drained] in Hf'.
  rewrite app_nil_r, backlog_cons, <- app_assoc in Hf'. cbn [app] in Hf'.
  rewrite (GetLine_line fd buffer _ _ l _ Hf' eq_refl Hl).
  unfold retval_of, buffer_of, world_of. cbn [fst snd].
  rewrite held_arrive, Hh, app_nil_l. cbn [fmap list_fmap]. f_equal.
  apply IH; [|done]. cbn [files when_drained]. by rewrite lookup_insert_eq.
Qed.

(** X22: a backlog of complete lines on the descriptor is handed out one
    line per call, oldest first: as many polls as there are lines report
    exactly those lines, each with its newline, whatever follows them. *)
Theorem backlog_is_reported_one_line_per_poll fd ls tail buffer w d :
  Forall (λ l, newline ∉ l) ls →
  files w !! fd = Some (File (concat ((λ l, l ++ [newline]) <$> ls) ++ tail) d) →
  needs_a_reset w = true ∨ buffer = [] →
  let cs := session fd (replicate (length ls) (Arrival [] None)) buffer w in
  reported cs = (λ l, l ++ [newline]) <$> ls
  ∧ Forall (λ c, line_ready c = true) cs.
Proof.
  intros Hls Hf Hfresh cs.
  assert (held w buffer = []) as Hh.
  { unfold held. destruct Hfresh as [->| ->]; [done|]. by destruct (needs_a_reset w). }
  assert (reported cs = (λ l, l ++ [newline]) <$> ls) as Hrep
    by (by apply (session_backlog fd ls tail buffer w d)).
  split; [done|].
  assert (length (filter (λ c, line_ready c = true) cs) = length cs) as Hall.
  { apply (f_equal length) in Hrep. unfold reported in Hrep.
    rewrite !length_fmap in Hrep. rewrite Hrep. unfold cs. clear.
    generalize (length ls) as n. intros n. revert buffer w.
    induction n as [|n IHn]; intros buffer w; [done|].
    cbn [replicate session length]. by rewrite <- IHn. }
  clear -Hall. induction cs as [|c cs IHcs]; [done|].
  rewrite filter_cons in Hall. destruct (decide (line_ready c = true)) as [Hc|Hc].
  - cbn [length] in Hall. constructor; [done|]. apply IHcs. lia.
  - pose proof (length_filter (λ c, line_ready c = true) cs) as Hle.
    cbn [length] in Hall. lia.
Qed.

(** Three lines and the start of a fourth wait on descriptor 3. *)
Lemma backlog_is_reported_witness :
  let ls := [text "one"; []; text "three"] in
  let w := initial_world 0
             {[3 := File (concat ((λ l, l ++ [newline]) <$> ls) ++ text "fo") EndOfStream]} in
  let cs := session 3 (replicate (length ls) (Arrival [] None)) (text "junk") w in
  reported cs = (λ l, l ++ [newline]) <$> ls
  ∧ Forall (λ c, line_ready c = true) cs.
Proof.
  apply (backlog_is_reported_one_line_per_poll 3
           [text "one"; []; text "three"] (text "fo") (text "junk") _ EndOfStream);
    [repeat constructor; compute_done|reflexivity|by left].
Defined.
